(** * Auditbeat system module: login tailer and user differ

    A shallow embedding of
    - [x-pack/auditbeat/module/system/login/utmp.go] (the reader built on
      [ReadNextUtmp]), in [Module login];
    - the earlier libc-based revision of the same reader (the source file
      that calls [getutent]), in [Module login.legacy];
    - [x-pack/auditbeat/module/system/user/user.go], in [Module user].

    Go maps are finite maps ([gmap]), slices are lists, machine integers
    are [Z]; a method with a pointer receiver takes the receiver's state
    and returns the new one. *)

From Stdlib Require Import ZArith Lia List.
From stdpp Require Import base decidable option list gmap strings fin_maps sorting pretty.

Local Open Scope Z_scope.

Module login.

(** ** Data *)

(** [type Inode uint64] *)
Definition Inode := N.

(** [type Utmp struct]. [UtTv] ([time.Time]) is kept as Unix nanoseconds;
    [UtAddrV6] ([[4]uint32]) as four words. *)
Record Utmp := mkUtmp {
  UtType : Z;
  UtPid : Z;
  UtLine : string;
  UtUser : string;
  UtHost : string;
  UtTv : Z;
  UtAddrV6 : Z * Z * Z * Z
}.

#[global] Instance Utmp_eq_dec : EqDecision Utmp.
Proof. solve_decision. Defined.

(** The zero [time.Time], January 1 of year 1, in Unix nanoseconds. *)
Definition timeZero : Z := -62135596800 * 10 ^ 9.

(** The zero value of [Utmp], [Utmp{}]: its [UtTv] is the zero
    [time.Time], not the Unix epoch. *)
Definition Utmp_zero : Utmp := mkUtmp 0 0 "" "" "" timeZero (0, 0, 0, 0).

(** A record built from an entry of a utmp file has the time
    [time.Unix(tv_sec, tv_usec * 1000)], which [reflect.DeepEqual] never
    finds equal to the zero [time.Time]. *)
Definition readFromFile (utmp : Utmp) : Prop := UtTv utmp ≠ timeZero.

(** [type FileRecord struct]; the field [Inode] is [FileInode] here, the
    name [Inode] being taken by the type. *)
Record FileRecord := mkFileRecord {
  FileInode : Inode;
  Size : Z;
  LastUtmp : Utmp
}.

#[global] Instance FileRecord_eq_dec : EqDecision FileRecord.
Proof. solve_decision. Defined.

(** The constants of utmp(5) the reader switches on. *)
Definition RUN_LVL : Z := 1.
Definition BOOT_TIME : Z := 2.
Definition USER_PROCESS : Z := 7.
Definition DEAD_PROCESS : Z := 8.

(** Modelled from the spec: the record-type enumeration of [LoginRecord]
    (its declaration is not among the sources): event kind in
    user_login, user_logout, boot, shutdown, unknown. [unknownRecord] also
    stands for the value of a [Type] field that was never assigned. *)
Inductive RecordType :=
  | unknownRecord
  | userLoginRecord
  | userLogoutRecord
  | bootRecord
  | shutdownRecord.

#[global] Instance RecordType_eq_dec : EqDecision RecordType.
Proof. solve_decision. Defined.

(** Modelled from the spec: [type LoginRecord struct], with the fields the
    reader assigns. [RawUtmp] is the field [Utmp], [RecType] the field
    [Type]; [IP] is a [*net.IP], [None] for nil. *)
Record LoginRecord := mkLoginRecord {
  RawUtmp : Utmp;
  RecType : RecordType;
  PID : Z;
  TTY : string;
  UID : Z;
  Username : string;
  Hostname : string;
  IP : option (list Z);
  Timestamp : Z;
  Origin : string
}.

#[global] Instance LoginRecord_eq_dec : EqDecision LoginRecord.
Proof. solve_decision. Defined.

Definition set_RecType (t : RecordType) (l : LoginRecord) : LoginRecord :=
  mkLoginRecord (RawUtmp l) t (PID l) (TTY l) (UID l) (Username l)
                (Hostname l) (IP l) (Timestamp l) (Origin l).
Definition set_PID (p : Z) (l : LoginRecord) : LoginRecord :=
  mkLoginRecord (RawUtmp l) (RecType l) p (TTY l) (UID l) (Username l)
                (Hostname l) (IP l) (Timestamp l) (Origin l).
Definition set_TTY (t : string) (l : LoginRecord) : LoginRecord :=
  mkLoginRecord (RawUtmp l) (RecType l) (PID l) t (UID l) (Username l)
                (Hostname l) (IP l) (Timestamp l) (Origin l).
Definition set_UID (u : Z) (l : LoginRecord) : LoginRecord :=
  mkLoginRecord (RawUtmp l) (RecType l) (PID l) (TTY l) u (Username l)
                (Hostname l) (IP l) (Timestamp l) (Origin l).
Definition set_Username (u : string) (l : LoginRecord) : LoginRecord :=
  mkLoginRecord (RawUtmp l) (RecType l) (PID l) (TTY l) (UID l) u
                (Hostname l) (IP l) (Timestamp l) (Origin l).
Definition set_Hostname (h : string) (l : LoginRecord) : LoginRecord :=
  mkLoginRecord (RawUtmp l) (RecType l) (PID l) (TTY l) (UID l) (Username l)
                h (IP l) (Timestamp l) (Origin l).
Definition set_IP (i : option (list Z)) (l : LoginRecord) : LoginRecord :=
  mkLoginRecord (RawUtmp l) (RecType l) (PID l) (TTY l) (UID l) (Username l)
                (Hostname l) i (Timestamp l) (Origin l).
Definition set_Origin (o : string) (l : LoginRecord) : LoginRecord :=
  mkLoginRecord (RawUtmp l) (RecType l) (PID l) (TTY l) (UID l) (Username l)
                (Hostname l) (IP l) (Timestamp l) o.

(** [type UtmpFileReader struct]: the two tables a poll reads and writes
    (logger, bucket and pattern are the poll's environment). *)
Record UtmpFileReader := mkReader {
  fileRecords : gmap Inode FileRecord;
  loginSessions : gmap string LoginRecord
}.

Definition set_fileRecords (m : gmap Inode FileRecord) (r : UtmpFileReader) :=
  mkReader m (loginSessions r).
Definition set_loginSessions (m : gmap string LoginRecord) (r : UtmpFileReader) :=
  mkReader (fileRecords r) m.

(** ** Address decoding *)

(** [binary.LittleEndian.PutUint32] *)
Definition PutUint32 (v : Z) : list Z :=
  [Z.land v 255; Z.land (Z.shiftr v 8) 255;
   Z.land (Z.shiftr v 16) 255; Z.land (Z.shiftr v 24) 255].

Definition newIP (utAddrV6 : Z * Z * Z * Z) : option (list Z) :=
  let '(a0, a1, a2, a3) := utAddrV6 in
  if negb (a1 =? 0) || negb (a2 =? 0) || negb (a3 =? 0)
  then Some (PutUint32 a0 ++ PutUint32 a1 ++ PutUint32 a2 ++ PutUint32 a3)
  else Some (PutUint32 a0).

(** [rune(n)]: conversion of an [int] to [int32]. *)
Definition rune (n : Z) : Z := (n + 2 ^ 31) mod 2 ^ 32 - 2 ^ 31.

(** ** Session folding *)

Section Folding.

(** The host's account database as [os/user.Lookup] sees it (the [Uid]
    string of a user, if any) and [strconv.Atoi]. *)
Variable user_Lookup : string → option string.
Variable strconv_Atoi : string → option Z.

Definition lookupUsername (username : string) : Z :=
  if decide (username ≠ "") then
    match user_Lookup username with
    | Some uid_s =>
        match strconv_Atoi uid_s with
        | Some uid => uid
        | None => -1
        end
    | None => -1
    end
  else -1.

(** The record [processLoginRecord] starts from, with the terminal line
    normalised. *)
Definition initRecord (utmp : Utmp) : LoginRecord :=
  let record := mkLoginRecord utmp unknownRecord (-1) "" (-1) "" "" None (UtTv utmp) "" in
  if decide (UtLine utmp ≠ "~") then set_TTY (UtLine utmp) record else record.

(** The record stored and returned for a [USER_PROCESS] entry. *)
Definition loginRecordOf (utmp : Utmp) : LoginRecord :=
  set_Hostname (UtHost utmp)
    (set_IP (newIP (UtAddrV6 utmp))
      (set_PID (UtPid utmp)
        (set_UID (lookupUsername (UtUser utmp))
          (set_Username (UtUser utmp)
            (set_RecType userLoginRecord (initRecord utmp)))))).

(** The record returned for a [DEAD_PROCESS] entry whose line is in the
    table. *)
Definition logoutRecordOf (savedRecord : LoginRecord) (utmp : Utmp) : LoginRecord :=
  set_Hostname (Hostname savedRecord)
    (set_IP (IP savedRecord)
      (set_PID (PID savedRecord)
        (set_UID (UID savedRecord)
          (set_Username (Username savedRecord)
            (set_RecType userLogoutRecord (initRecord utmp)))))).

(** [func (r *UtmpFileReader) processLoginRecord(utmp Utmp) *LoginRecord]
    of utmp.go: the returned pointer ([None] for nil) and the reader
    afterwards. *)
Definition processLoginRecord (r : UtmpFileReader) (utmp : Utmp)
  : option LoginRecord * UtmpFileReader :=
  let record := initRecord utmp in
  if UtType utmp =? RUN_LVL then
    let runlevel := rune (UtPid utmp) in
    if bool_decide (UtUser utmp = "shutdown") || (runlevel =? 48) || (runlevel =? 54)
    then (Some (set_RecType shutdownRecord record), set_loginSessions ∅ r)
    else (None, r)
  else if UtType utmp =? BOOT_TIME then
    if bool_decide (UtLine utmp = "~") && bool_decide (UtUser utmp = "reboot")
    then (Some (set_RecType bootRecord record), set_loginSessions ∅ r)
    else (None, r)
  else if UtType utmp =? USER_PROCESS then
    let record := loginRecordOf utmp in
    (Some record, set_loginSessions (<[TTY record := record]> (loginSessions r)) r)
  else if UtType utmp =? DEAD_PROCESS then
    match loginSessions r !! TTY record with
    | Some savedRecord => (Some (logoutRecordOf savedRecord utmp), r)
    | None => (None, r)
    end
  else (None, r).

End Folding.

(** ** Reading a file *)

(** Errors a poll can return, one per [errors.Wrap]/[errors.Errorf] site. *)
Inductive error :=
  | ErrGlob                        (* failed to expand file pattern *)
  | ErrStat (path : string)        (* unexpected error when looking up file *)
  | ErrOpen (path : string)        (* error opening *)
  | ErrReadFile (path : string) (cause : error)   (* error reading file *)
  | ErrNoNewRecords (path : string)  (* unexpectedly, there are no new records *)
  | ErrReadEntry                   (* error reading entry in UTMP file *)
  | ErrSeek.                       (* error reading file from beginning *)

Inductive result (A : Type) :=
  | Ok (a : A)
  | Err (e : error).
Arguments Ok {A} a.
Arguments Err {A} e.

(** How the stream of an open file ends once its records are consumed:
    [ReadNextUtmp] returns [io.EOF], or another error (for instance a
    truncated last record). *)
Inductive StreamEnd := AtEOF | ReadFails.

(** An opened file, as the decoder [ReadNextUtmp] presents it: the records
    it yields in order, how the stream ends, and whether [Seek(0, 0)]
    succeeds. *)
Record File := mkFile {
  records : list Utmp;
  stream_end : StreamEnd;
  seek_ok : bool
}.

(** The two dynamic types [reflect.DeepEqual] meets in this package: an
    interface holding a [Utmp] and one holding a non-nil [*Utmp]. *)
Inductive GoValue :=
  | ValUtmp (u : Utmp)
  | PtrUtmp (u : Utmp).

(** [reflect.DeepEqual]: values of different types are never deeply equal;
    two structs are compared field by field, two pointers by what they
    point to. *)
Definition DeepEqual (x y : GoValue) : bool :=
  match x, y with
  | ValUtmp a, ValUtmp b => bool_decide (a = b)
  | PtrUtmp a, PtrUtmp b => bool_decide (a = b)
  | _, _ => false
  end.

(** One pass of the [for] loop of [readAfter] in utmp.go over the records
    still to come. [utmp] is the [*Utmp] that [ReadNextUtmp] returned (the
    loop tests [utmp != nil] and appends [*utmp]); it is handed to
    [reflect.DeepEqual] as it is, together with [*lastKnownRecord], a
    [Utmp]. Returns [reachedNewRecords] and [utmpRecords] when the stream is
    exhausted. *)
Fixpoint readPass (lastKnownRecord : option Utmp) (pending : list Utmp)
    (reachedNewRecords : bool) (utmpRecords : list Utmp) : bool * list Utmp :=
  match pending with
  | [] => (reachedNewRecords, utmpRecords)
  | utmp :: pending =>
      let utmpRecords :=
        if reachedNewRecords then utmpRecords ++ [utmp] else utmpRecords in
      let reachedNewRecords :=
        match lastKnownRecord with
        | Some last =>
            if negb reachedNewRecords && DeepEqual (PtrUtmp utmp) (ValUtmp last)
            then true else reachedNewRecords
        | None => reachedNewRecords
        end in
      readPass lastKnownRecord pending reachedNewRecords utmpRecords
  end.

(** [func (r *UtmpFileReader) readAfter(f *os.File, lastKnownRecord *Utmp)]
    of utmp.go. After the rewind [reachedNewRecords] is true, so the loop
    comes to the end of the stream at most twice. *)
Definition readAfter (f : File) (lastKnownRecord : option Utmp) : result (list Utmp) :=
  let '(reachedNewRecords, utmpRecords) :=
    readPass lastKnownRecord (records f) (bool_decide (lastKnownRecord = None)) [] in
  match stream_end f with
  | ReadFails => Err ErrReadEntry
  | AtEOF =>
      if negb reachedNewRecords && bool_decide (lastKnownRecord ≠ None) then
        if seek_ok f then
          Ok (snd (readPass lastKnownRecord (records f) true utmpRecords))
        else Err ErrSeek
      else Ok utmpRecords
  end.

(** ** One poll *)

(** What [os.Stat] answers for a path. *)
Inductive StatResult :=
  | StatOk (ino : Inode) (size : Z)
  | StatNotExist
  | StatError.

(** The files a poll sees: what [filepath.Glob] returns for the reader's
    pattern ([None] for a malformed pattern), [os.Stat] and [os.Open]. *)
Record FileSystem := mkFS {
  Glob : option (list string);
  Stat : string → StatResult;
  Open : string → option File
}.

(** [sort.Sort(sort.Reverse(sort.StringSlice(paths)))] *)
Definition string_ge (a b : string) : Prop := String.leb b a = true.
#[global] Instance string_ge_dec : RelDecision string_ge.
Proof. intros a b. unfold string_ge. apply _. Defined.
Definition sortReverse (paths : list string) : list string :=
  merge_sort string_ge paths.

(** [func (r *UtmpFileReader) updateFileRecord(inode, size, utmpRecords *[]Utmp)];
    [None] is the nil pointer. *)
Definition updateFileRecord (r : UtmpFileReader) (inode : Inode) (size : Z)
    (utmpRecords : option (list Utmp)) : UtmpFileReader :=
  let carried :=
    match fileRecords r !! inode with
    | Some oldFileRecord => LastUtmp oldFileRecord
    | None => Utmp_zero
    end in
  let lastUtmp :=
    match utmpRecords with
    | Some (u :: us) => List.last (u :: us) Utmp_zero
    | _ => carried
    end in
  set_fileRecords (<[inode := mkFileRecord inode size lastUtmp]> (fileRecords r)) r.

(** [func (r *UtmpFileReader) deleteOldRecords(existingInodes *[]Inode)] *)
Definition deleteOldRecords (r : UtmpFileReader) (existingInodes : list Inode)
  : UtmpFileReader :=
  set_fileRecords
    (filter (λ kv, bool_decide (kv.1 ∈ existingInodes) = true) (fileRecords r)) r.

(** A call [defer r.updateFileRecord(inode, newSize, &utmpRecords)]: the
    first two arguments as evaluated when the [defer] statement ran, and
    the slice [utmpRecords] holds when [ReadNew] returns. *)
Record Deferred := mkDeferred {
  d_inode : Inode;
  d_size : Z;
  d_records : list Utmp
}.

(** The locals of [ReadNew] that outlive one iteration. *)
Record Frame := mkFrame {
  reader : UtmpFileReader;
  inodes : list Inode;
  deferred : list Deferred;       (* in the order the defers were made *)
  loginRecords : list LoginRecord
}.

(** The last record a cursor carries, the zero [Utmp] when there is no
    cursor. *)
Definition carriedLastUtmp (found : option FileRecord) : Utmp :=
  match found with
  | Some oldFileRecord => LastUtmp oldFileRecord
  | None => Utmp_zero
  end.

(** The slice [utmpRecords] of [ReadNew] once the read is over: what the
    read returned, nil if it failed. *)
Definition recordsRead (res : result (list Utmp)) : list Utmp :=
  match res with
  | Ok utmpRecords => utmpRecords
  | Err _ => []
  end.

Section Poll.

Variable user_Lookup : string → option string.
Variable strconv_Atoi : string → option Z.
Variable fs : FileSystem.

(** The inner [for _, utmp := range utmpRecords] of [ReadNew]. *)
Fixpoint processAll (path : string) (utmpRecords : list Utmp)
    (r : UtmpFileReader) (loginRecords : list LoginRecord)
  : UtmpFileReader * list LoginRecord :=
  match utmpRecords with
  | [] => (r, loginRecords)
  | utmp :: rest =>
      let '(loginRecord, r) := processLoginRecord user_Lookup strconv_Atoi r utmp in
      match loginRecord with
      | Some loginRecord =>
          processAll path rest r (loginRecords ++ [set_Origin path loginRecord])
      | None => processAll path rest r loginRecords
      end
  end.

(** The locals [oldSize] and [isKnownFile] (once the size check has run)
    for what [r.fileRecords[inode]] returned. *)
Definition oldSizeOf (found : option FileRecord) : Z :=
  Size (default (mkFileRecord 0%N 0 Utmp_zero) found).
Definition isKnownFile (found : option FileRecord) (newSize : Z) : bool :=
  if newSize <? oldSizeOf found then false else bool_decide (found ≠ None).

(** The record [readAfter] is asked to resume after. *)
Definition lastKnownOf (found : option FileRecord) (newSize : Z) : option Utmp :=
  if isKnownFile found newSize
  then Some (LastUtmp (default (mkFileRecord 0%N 0 Utmp_zero) found))
  else None.

(** Opening and reading one file: [os.Open], [readAfter] and the check
    that records came back. *)
Definition readFile (path : string) (found : option FileRecord) (newSize : Z)
  : result (list Utmp) :=
  match Open fs path with
  | None => Err (ErrOpen path)
  | Some f =>
      match readAfter f (lastKnownOf found newSize) with
      | Err e => Err (ErrReadFile path e)
      | Ok [] => Err (ErrNoNewRecords path)
      | Ok utmpRecords => Ok utmpRecords
      end
  end.

(** The [for _, path := range paths] of [ReadNew]: the frame when the loop
    is left, and the error if it is left by a [return nil, err]. The
    deferred cursor update is registered before the file is opened; the
    slice it points to stays nil when the read fails. *)
Fixpoint pollLoop (paths : list string) (fr : Frame) : Frame * option error :=
  match paths with
  | [] => (fr, None)
  | path :: paths =>
      match Stat fs path with
      | StatNotExist => pollLoop paths fr
      | StatError => (fr, Some (ErrStat path))
      | StatOk inode newSize =>
          let inodes := inodes fr ++ [inode] in
          let r := reader fr in
          let found := fileRecords r !! inode in
          let oldSize := oldSizeOf found in
          let isKnownFile := isKnownFile found newSize in
          if negb isKnownFile && (newSize =? 0) then
            pollLoop paths
              (mkFrame (updateFileRecord r inode newSize None) inodes
                       (deferred fr) (loginRecords fr))
          else if negb isKnownFile || negb (newSize =? oldSize) then
            match readFile path found newSize with
            | Err e =>
                (mkFrame r inodes (deferred fr ++ [mkDeferred inode newSize []])
                         (loginRecords fr),
                 Some e)
            | Ok utmpRecords =>
                let '(r, loginRecords) :=
                  processAll path utmpRecords r (loginRecords fr) in
                pollLoop paths
                  (mkFrame r inodes
                           (deferred fr ++ [mkDeferred inode newSize utmpRecords])
                           loginRecords)
            end
          else pollLoop paths (mkFrame r inodes (deferred fr) (loginRecords fr))
      end
  end.

(** Whether [ReadNew] starts reading a file of size [newSize] whose inode
    has the cursor [found]: the conditions of the two [if] statements. *)
Definition readStarted (found : option FileRecord) (newSize : Z) : bool :=
  let isKnownFile := isKnownFile found newSize in
  negb (negb isKnownFile && (newSize =? 0))
  && (negb isKnownFile || negb (newSize =? oldSizeOf found)).

(** The inode [os.Stat] reports for a path, if it reports one. *)
Definition statInode (path : string) : option Inode :=
  match Stat fs path with
  | StatOk inode _ => Some inode
  | _ => None
  end.

(** Running the deferred [updateFileRecord] calls, last made first. *)
Definition runDeferred (ds : list Deferred) (r : UtmpFileReader) : UtmpFileReader :=
  foldl (λ r d, updateFileRecord r (d_inode d) (d_size d) (Some (d_records d)))
        r (reverse ds).

(** The frame [ReadNew] holds when its body is left, before any deferred
    call has run. *)
Definition pollBody (r : UtmpFileReader) : Frame * option error :=
  match Glob fs with
  | None => (mkFrame r [] [] [], Some ErrGlob)
  | Some paths => pollLoop (sortReverse paths) (mkFrame r [] [] [])
  end.

(** [func (r *UtmpFileReader) ReadNew() ([]LoginRecord, error)]: the body,
    then the deferred cursor updates, then [deleteOldRecords], which was
    deferred first and so runs last. *)
Definition ReadNew (r : UtmpFileReader) : result (list LoginRecord) * UtmpFileReader :=
  let '(fr, err) := pollBody r in
  let r := deleteOldRecords (runDeferred (deferred fr) (reader fr)) (inodes fr) in
  match err with
  | Some e => (Err e, r)
  | None => (Ok (loginRecords fr), r)
  end.

End Poll.

(** ** The earlier reader, built on [getutent] *)

Module legacy.

Section Folding.

Variable user_Lookup : string → option string.
Variable strconv_Atoi : string → option Z.

(** [processLoginRecord] of the earlier revision: it differs from the
    current one in the [BOOT_TIME] case only. *)
Definition processLoginRecord (r : UtmpFileReader) (utmp : Utmp)
  : option LoginRecord * UtmpFileReader :=
  let record := initRecord utmp in
  if UtType utmp =? RUN_LVL then
    let runlevel := rune (UtPid utmp) in
    if bool_decide (UtUser utmp = "shutdown") || (runlevel =? 48) || (runlevel =? 54)
    then (Some (set_RecType shutdownRecord record), set_loginSessions ∅ r)
    else (None, r)
  else if UtType utmp =? BOOT_TIME then
    if bool_decide (UtLine utmp = "~") && bool_decide (UtUser utmp = "reboot")
    then (Some (set_RecType bootRecord record), set_loginSessions ∅ r)
    else (Some (set_RecType unknownRecord record), r)
  else if UtType utmp =? USER_PROCESS then
    let record := loginRecordOf user_Lookup strconv_Atoi utmp in
    (Some record, set_loginSessions (<[TTY record := record]> (loginSessions r)) r)
  else if UtType utmp =? DEAD_PROCESS then
    match loginSessions r !! TTY record with
    | Some savedRecord => (Some (logoutRecordOf savedRecord utmp), r)
    | None => (None, r)
    end
  else (None, r).

End Folding.

(** One pass of the [for] loop of the earlier [readAfter]: [utmp] is a
    [Utmp] value, compared with [*lastKnownRecord] whether or not the new
    records were reached already. *)
Fixpoint readPass (lastKnownRecord : option Utmp) (pending : list Utmp)
    (reachedNewRecords : bool) (utmpRecords : list Utmp) : bool * list Utmp :=
  match pending with
  | [] => (reachedNewRecords, utmpRecords)
  | utmp :: pending =>
      let utmpRecords :=
        if reachedNewRecords then utmpRecords ++ [utmp] else utmpRecords in
      let reachedNewRecords :=
        match lastKnownRecord with
        | Some last =>
            if DeepEqual (ValUtmp utmp) (ValUtmp last) then true
            else reachedNewRecords
        | None => reachedNewRecords
        end in
      readPass lastKnownRecord pending reachedNewRecords utmpRecords
  end.

(** The earlier [readAfter(path, lastKnownRecord)], on the file [setutent]
    opened: when the saved record is missing it calls itself with a nil
    record, which is the first branch here. *)
Definition readAfter (f : File) (lastKnownRecord : option Utmp) : result (list Utmp) :=
  let readAll :=
    match stream_end f with
    | ReadFails => Err ErrReadEntry
    | AtEOF => Ok (snd (readPass None (records f) true []))
    end in
  match lastKnownRecord with
  | None => readAll
  | Some last =>
      let '(reachedNewRecords, utmpRecords) :=
        readPass (Some last) (records f) false [] in
      match stream_end f with
      | ReadFails => Err ErrReadEntry
      | AtEOF => if negb reachedNewRecords then readAll else Ok utmpRecords
      end
  end.

End legacy.

(** ** Keys of the two tables *)

(** Every cursor is filed under its own inode, every open session under its
    own terminal line. *)
Definition cursorsKeyed (m : gmap Inode FileRecord) : Prop :=
  ∀ i c, m !! i = Some c → FileInode c = i.
Definition sessionsKeyed (m : gmap string LoginRecord) : Prop :=
  ∀ t l, m !! t = Some l → TTY l = t.

(** [binary.LittleEndian.Uint32], the inverse of [PutUint32]. *)
Definition Uint32 (b : list Z) : Z :=
  match b with
  | b0 :: b1 :: b2 :: b3 :: _ =>
      Z.lor b0 (Z.lor (Z.shiftl b1 8) (Z.lor (Z.shiftl b2 16) (Z.shiftl b3 24)))
  | _ => 0
  end.

(** ** Persistent state *)

Definition bucketKeyFileRecords := "file_records".
Definition bucketKeyLoginSessions := "login_sessions".

Inductive storeError :=
  | ErrLoad (key : string)          (* bucket.Load failed *)
  | ErrDecodeFileRecord             (* error decoding file record *)
  | ErrDecodeLoginRecord            (* error decoding login record *)
  | ErrWriteFileRecords             (* error writing file records to disk *)
  | ErrWriteLoginRecords.           (* error writing login records to disk *)

(** The reader's [datastore.Bucket]: the blobs under its two keys and
    whether [Load] and [Store] succeed for a key. A blob is kept as the
    sequence of values its gob stream decodes to, [None] standing for an
    item the decoder rejects; the empty sequence is the blob of length 0.
    Encoding followed by decoding is taken to give the value back. *)
Record Bucket := mkBucket {
  blobFileRecords : list (option FileRecord);
  blobLoginSessions : list (option LoginRecord);
  Load_ok : string → bool;
  Store_ok : string → bool
}.

(** Go's [range] over a map visits every entry once, in an order that is
    not specified and may differ from one loop to the next: [visited] is a
    sequence in which the values of [m] can be visited. *)
Definition rangesOver `{Countable K} {A : Type} (m : gmap K A) (visited : list A)
  : Prop :=
  visited ≡ₚ (map_to_list m).*2.

Section Saving.
(** The order in which [range] visits the values of each of the two
    tables. *)
Variable rangeFileRecords : gmap Inode FileRecord → list FileRecord.
Variable rangeLoginSessions : gmap string LoginRecord → list LoginRecord.

(** [func (r *UtmpFileReader) saveFileRecordsToDisk() error] *)
Definition saveFileRecordsToDisk (r : UtmpFileReader) (b : Bucket)
  : option storeError * Bucket :=
  let buf := Some <$> rangeFileRecords (fileRecords r) in
  if Store_ok b bucketKeyFileRecords
  then (None, mkBucket buf (blobLoginSessions b) (Load_ok b) (Store_ok b))
  else (Some ErrWriteFileRecords, b).

(** [func (r *UtmpFileReader) saveLoginSessionsToDisk() error] *)
Definition saveLoginSessionsToDisk (r : UtmpFileReader) (b : Bucket)
  : option storeError * Bucket :=
  let buf := Some <$> rangeLoginSessions (loginSessions r) in
  if Store_ok b bucketKeyLoginSessions
  then (None, mkBucket (blobFileRecords b) buf (Load_ok b) (Store_ok b))
  else (Some ErrWriteLoginRecords, b).

(** [func (r *UtmpFileReader) saveStateToDisk() error] *)
Definition saveStateToDisk (r : UtmpFileReader) (b : Bucket)
  : option storeError * Bucket :=
  match saveFileRecordsToDisk r b with
  | (Some err, b) => (Some err, b)
  | (None, b) => saveLoginSessionsToDisk r b
  end.

End Saving.

(** The decoding loops of the two restore functions: each value decoded
    is put into the table under its [Inode], respectively [TTY], field; the
    end of the stream ends the loop, an item that does not decode is an
    error. *)
Fixpoint decodeFileRecords (blob : list (option FileRecord))
    (m : gmap Inode FileRecord) : option (gmap Inode FileRecord) :=
  match blob with
  | [] => Some m
  | Some fileRecord :: blob =>
      decodeFileRecords blob (<[FileInode fileRecord := fileRecord]> m)
  | None :: _ => None
  end.

Fixpoint decodeLoginRecords (blob : list (option LoginRecord))
    (m : gmap string LoginRecord) : option (gmap string LoginRecord) :=
  match blob with
  | [] => Some m
  | Some loginRecord :: blob =>
      decodeLoginRecords blob (<[TTY loginRecord := loginRecord]> m)
  | None :: _ => None
  end.

(** [func (r *UtmpFileReader) restoreFileRecordsFromDisk() error] *)
Definition restoreFileRecordsFromDisk (b : Bucket) (r : UtmpFileReader)
  : storeError + UtmpFileReader :=
  if Load_ok b bucketKeyFileRecords then
    match decodeFileRecords (blobFileRecords b) (fileRecords r) with
    | Some m => inr (set_fileRecords m r)
    | None => inl ErrDecodeFileRecord
    end
  else inl (ErrLoad bucketKeyFileRecords).

(** [func (r *UtmpFileReader) restoreLoginSessionsFromDisk() error] *)
Definition restoreLoginSessionsFromDisk (b : Bucket) (r : UtmpFileReader)
  : storeError + UtmpFileReader :=
  if Load_ok b bucketKeyLoginSessions then
    match decodeLoginRecords (blobLoginSessions b) (loginSessions r) with
    | Some m => inr (set_loginSessions m r)
    | None => inl ErrDecodeLoginRecord
    end
  else inl (ErrLoad bucketKeyLoginSessions).

(** [func (r *UtmpFileReader) restoreStateFromDisk() error] *)
Definition restoreStateFromDisk (b : Bucket) (r : UtmpFileReader)
  : storeError + UtmpFileReader :=
  match restoreFileRecordsFromDisk b r with
  | inl err => inl err
  | inr r => restoreLoginSessionsFromDisk b r
  end.

(** [func NewUtmpFileReader(log, bucket, filePattern)]: the reader with its
    state restored, or the error. *)
Definition NewUtmpFileReader (b : Bucket) : storeError + UtmpFileReader :=
  restoreStateFromDisk b (mkReader ∅ ∅).

End login.

(** ** The 64-bit xxHash of github.com/OneOfOne/xxhash

    The library is a dependency, not part of the repository: this is the
    XXH64 algorithm with seed 0, which [xxhash.New64] followed by writes
    and [Sum64] computes over the concatenation of what was written. *)
Module xxhash.

Definition prime1 : Z := 0x9E3779B185EBCA87.
Definition prime2 : Z := 0xC2B2AE3D27D4EB4F.
Definition prime3 : Z := 0x165667B19E3779F9.
Definition prime4 : Z := 0x85EBCA77C2B2AE63.
Definition prime5 : Z := 0x27D4EB2F165667C5.

(** Arithmetic on [uint64]. *)
Definition u64 (x : Z) : Z := x mod 2 ^ 64.
Definition rotl (x r : Z) : Z := u64 (Z.lor (Z.shiftl x r) (Z.shiftr x (64 - r))).
Definition round (acc input : Z) : Z :=
  u64 (rotl (u64 (acc + input * prime2)) 31 * prime1).
Definition mergeRound (acc val : Z) : Z :=
  u64 (Z.lxor acc (round 0 val) * prime1 + prime4).

(** Little-endian reading of the first bytes of a slice. *)
Fixpoint le (bs : list Z) : Z :=
  match bs with
  | [] => 0
  | b :: bs => b + 256 * le bs
  end.

(** The four lanes over the 32-byte stripes; [n] bounds the number of
    stripes by the length of the input. *)
Fixpoint stripes (n : nat) (v : Z * Z * Z * Z) (p : list Z) : Z * Z * Z * Z * list Z :=
  match n with
  | O => (v, p)
  | S n =>
      if (32 <=? Z.of_nat (length p)) then
        let '(v1, v2, v3, v4) := v in
        stripes n (round v1 (le (take 8 p)),
                   round v2 (le (take 8 (drop 8 p))),
                   round v3 (le (take 8 (drop 16 p))),
                   round v4 (le (take 8 (drop 24 p)))) (drop 32 p)
      else (v, p)
  end.

(** The bytes after the last stripe: words of 8, one word of 4, single
    bytes. *)
Fixpoint tail8 (n : nat) (h : Z) (p : list Z) : Z * list Z :=
  match n with
  | O => (h, p)
  | S n =>
      if (8 <=? Z.of_nat (length p)) then
        let k1 := round 0 (le (take 8 p)) in
        tail8 n (u64 (rotl (Z.lxor h k1) 27 * prime1 + prime4)) (drop 8 p)
      else (h, p)
  end.

Definition tail4 (h : Z) (p : list Z) : Z * list Z :=
  if (4 <=? Z.of_nat (length p)) then
    (u64 (rotl (Z.lxor h (u64 (le (take 4 p) * prime1))) 23 * prime2 + prime3), drop 4 p)
  else (h, p).

Definition tail1 (h : Z) (p : list Z) : Z :=
  foldl (λ h b, u64 (rotl (Z.lxor h (u64 (b * prime5))) 11 * prime1)) h p.

Definition avalanche (h : Z) : Z :=
  let h := Z.lxor h (Z.shiftr h 33) in
  let h := u64 (h * prime2) in
  let h := Z.lxor h (Z.shiftr h 29) in
  let h := u64 (h * prime3) in
  Z.lxor h (Z.shiftr h 32).

Definition Checksum64 (input : list Z) : Z :=
  let n := length input in
  let '(h, p) :=
    if (32 <=? Z.of_nat n) then
      let '(v1, v2, v3, v4, p) :=
        stripes n (u64 (prime1 + prime2), prime2, 0, u64 (0 - prime1)) input in
      let h := u64 (rotl v1 1 + rotl v2 7 + rotl v3 12 + rotl v4 18) in
      (mergeRound (mergeRound (mergeRound (mergeRound h v1) v2) v3) v4, p)
    else (prime5, input) in
  let h := u64 (h + Z.of_nat n) in
  let '(h, p) := tail8 n h p in
  let '(h, p) := tail4 h p in
  avalanche (tail1 h p).

Definition bytes (s : string) : list Z :=
  map (λ a, Z.of_N (Ascii.N_of_ascii a)) (String.list_ascii_of_string s).
Definition Sum64String (s : string) : Z := Checksum64 (bytes s).
End xxhash.

Module user.

(** ** Data *)

(** [type User struct], fields according to getpwent(3). *)
Record User := mkUser {
  Name : string;
  Passwd : string;
  UID : Z;
  GID : Z;
  UserInfo : string;
  Dir : string;
  Shell : string
}.

#[global] Instance User_eq_dec : EqDecision User.
Proof. solve_decision. Defined.

(** [strconv.Itoa] *)
Definition Itoa (n : Z) : string := pretty n.

(** [func (user User) Hash() uint64] *)
Definition Hash (user : User) : Z :=
  xxhash.Sum64String
    (Name user +:+ Passwd user +:+ Itoa (UID user) +:+ Itoa (GID user)
     +:+ Dir user +:+ Shell user).

(** Two accounts that agree on every field but the comment text
    [UserInfo]. *)
Definition sameButUserInfo (u v : User) : Prop :=
  Name u = Name v ∧ Passwd u = Passwd v ∧ UID u = UID v ∧ GID u = GID v
  ∧ Dir u = Dir v ∧ Shell u = Shell v.

(** Values of a [common.MapStr]. *)
Inductive Value :=
  | VString (s : string)
  | VUint32 (n : Z).

(** [func (user User) toMapStr() common.MapStr] *)
Definition toMapStr (user : User) : gmap string Value :=
  let evt : gmap string Value :=
    <["name" := VString (Name user)]>
    (<["passwd" := VString (Passwd user)]>
    (<["uid" := VUint32 (UID user)]>
    (<["gid" := VUint32 (GID user)]>
    (<["dir" := VString (Dir user)]>
    (<["shell" := VString (Shell user)]> ∅))))) in
  if decide (UserInfo user ≠ "")
  then <["user_information" := VString (UserInfo user)]> evt
  else evt.

Definition eventTypeState := "state".
Definition eventTypeEvent := "event".
Definition eventActionUserExists := "existing_user".
Definition eventActionUserAdded := "user_added".
Definition eventActionUserRemoved := "user_removed".
Definition eventActionUserChanged := "user_changed".
Definition bucketKeyUsers := "users".
Definition bucketKeyStateTimestamp := "state_timestamp".

(** An [mb.Event] as this metricset fills it: [event.type], [event.action]
    and, for state events, [event.id] in the root fields. *)
Record Event := mkEvent {
  event_type : string;
  event_action : string;
  event_id : option string;
  MetricSetFields : gmap string Value
}.

Definition userEvent (user : User) (eventType eventAction : string) : Event :=
  mkEvent eventType eventAction None (toMapStr user).

Inductive error :=
  | ErrGetUsers          (* Failed to get users *)
  | ErrStoreTimestamp    (* error writing state timestamp to disk *)
  | ErrStoreUsers.       (* error writing users to disk *)

(** What a poll hands to the reporter: [report.Event] and [report.Error]. *)
Inductive Reported :=
  | REvent (e : Event)
  | RError (e : error).

(** ** The diff cache *)

(** Modelled from the spec: the diff cache of package [cache] (not among
    the sources): an index of the previously observed items keyed by their
    fingerprint [Hash]; a later item replaces an earlier one with the same
    fingerprint. *)
Definition cacheOf (items : list User) : gmap Z User :=
  foldl (λ m u, <[Hash u := u]> m) ∅ items.

(** Modelled from the spec: [is_empty()], true iff the cache has never
    been populated or the last update left it empty. *)
Definition IsEmpty (c : gmap Z User) : bool := bool_decide (c = ∅).

(** Modelled from the spec: [diff_and_update(items)]: the items whose
    fingerprint is in the new set but not in the prior cache, the cached
    items whose fingerprint is not in the new set, and the cache replaced
    by the new set. *)
Definition DiffAndUpdateCache (c : gmap Z User) (items : list User)
  : list User * list User * gmap Z User :=
  let c' := cacheOf items in
  (filter (λ u, c !! Hash u = None) items,
   (map_to_list (filter (λ kv, c' !! kv.1 = None) c)).*2,
   c').

(** ** The metricset *)

(** Blobs of the bucket: the gob encodings are kept decoded. *)
Inductive Blob :=
  | BlobUsers (users : list User)
  | BlobTime (t : Z).

(** [type MetricSet struct]: [period] is [config.effectiveStatePeriod()], a
    [time.Duration] in nanoseconds; [lastState] a [time.Time] in Unix
    nanoseconds. *)
Record MetricSet := mkMetricSet {
  period : Z;
  cache : gmap Z User;
  bucket : gmap string Blob;
  lastState : Z
}.

(** The zero [time.Time]: January 1, year 1. *)
Definition zeroTime : Z := -62135596800 * 10 ^ 9.

(** What one call of [Fetch] gets from outside: the result of [GetUsers],
    the clock read by [time.Since] and by [time.Now], the fresh UUID, and
    whether [bucket.Store] succeeds for a key. *)
Record World := mkWorld {
  GetUsers : option (list User);
  clock_since : Z;
  clock_now : Z;
  uuid_NewV4 : string;
  Store_ok : string → bool
}.

(** [time.Since(t)]: a [time.Duration], saturating at the ends of [int64]. *)
Definition maxDuration : Z := 2 ^ 63 - 1.
Definition minDuration : Z := - 2 ^ 63.
Definition Since (now t : Z) : Z :=
  Z.max minDuration (Z.min maxDuration (now - t)).

Definition set_cache (c : gmap Z User) (ms : MetricSet) : MetricSet :=
  mkMetricSet (period ms) c (bucket ms) (lastState ms).
Definition set_bucket (b : gmap string Blob) (ms : MetricSet) : MetricSet :=
  mkMetricSet (period ms) (cache ms) b (lastState ms).
Definition set_lastState (t : Z) (ms : MetricSet) : MetricSet :=
  mkMetricSet (period ms) (cache ms) (bucket ms) t.

(** The loop [for _, missingUser := range missingFromCache] that fills
    [missingUserMap]. *)
Definition indexByUID (missingFromCache : list User) : gmap Z User :=
  foldl (λ m missingUser, <[UID missingUser := missingUser]> m) ∅ missingFromCache.

(** The loop [for _, newUser := range newInCache] of [compareUsers]. *)
Fixpoint pairUp (newInCache : list User) (missingUserMap : gmap Z User)
    (added changed : list User) : list User * list User * gmap Z User :=
  match newInCache with
  | [] => (added, changed, missingUserMap)
  | newUser :: rest =>
      match missingUserMap !! UID newUser with
      | Some matchingMissingUser =>
          pairUp rest (delete (UID matchingMissingUser) missingUserMap)
                 added (changed ++ [newUser])
      | None => pairUp rest missingUserMap (added ++ [newUser]) changed
      end
  end.

(** The body of [compareUsers] after the cache was consulted. The order in
    which Go ranges over [missingUserMap] is unspecified; [removed] is
    given in the order of [map_to_list]. *)
Definition classify (newInCache missingFromCache : list User)
  : list User * list User * list User :=
  if (0 <? Z.of_nat (length newInCache)) && (0 <? Z.of_nat (length missingFromCache))
  then
    let '(added, changed, missingUserMap) :=
      pairUp newInCache (indexByUID missingFromCache) [] [] in
    (added, (map_to_list missingUserMap).*2, changed)
  else (newInCache, missingFromCache, []).

(** No uid occurs in both lists. *)
Definition disjointByUID (l k : list User) : Prop :=
  ∀ x y, x ∈ l → y ∈ k → UID x ≠ UID y.

(** The classification in the words of the specification, to compare
    [classify] with: each newly-present account whose uid matches a
    newly-absent account is changed and that absent account is consumed;
    the remaining newly-present accounts are added, the remaining
    newly-absent accounts are removed. [takeByUID] finds and consumes the
    first account with a uid. *)
Fixpoint takeByUID (uid : Z) (accounts : list User) : option (User * list User) :=
  match accounts with
  | [] => None
  | account :: accounts =>
      if decide (UID account = uid) then Some (account, accounts)
      else
        match takeByUID uid accounts with
        | Some (found, remaining) => Some (found, account :: remaining)
        | None => None
        end
  end.

Fixpoint classifyByWords (newly_present newly_absent : list User)
  : list User * list User * list User :=
  match newly_present with
  | [] => ([], newly_absent, [])
  | account :: rest =>
      match takeByUID (UID account) newly_absent with
      | Some (_, remaining) =>
          let '(added, removed, changed) := classifyByWords rest remaining in
          (added, removed, account :: changed)
      | None =>
          let '(added, removed, changed) := classifyByWords rest newly_absent in
          (account :: added, removed, changed)
      end
  end.

(** [func (ms *MetricSet) compareUsers(users []*User) (added, removed, changed []*User)] *)
Definition compareUsers (ms : MetricSet) (users : list User)
  : (list User * list User * list User) * MetricSet :=
  let '(newInCache, missingFromCache, c) := DiffAndUpdateCache (cache ms) users in
  (classify newInCache missingFromCache, set_cache c ms).

(** [func (ms *MetricSet) saveUsersToDisk(users []*User) error] *)
Definition saveUsersToDisk (w : World) (ms : MetricSet) (users : list User)
  : option error * MetricSet :=
  if Store_ok w bucketKeyUsers
  then (None, set_bucket (<[bucketKeyUsers := BlobUsers users]> (bucket ms)) ms)
  else (Some ErrStoreUsers, ms).

(** [func (ms *MetricSet) reportState(report, users) error] *)
Definition reportState (w : World) (ms : MetricSet) (users : list User)
  : list Reported * option error * MetricSet :=
  let ms := set_lastState (clock_now w) ms in
  let stateID := uuid_NewV4 w in
  let events :=
    map (λ user,
           let event := userEvent user eventTypeState eventActionUserExists in
           REvent (mkEvent (event_type event) (event_action event) (Some stateID)
                           (MetricSetFields event)))
        users in
  let ms := set_cache (DiffAndUpdateCache (cache ms) users).2 ms in
  if Store_ok w bucketKeyStateTimestamp then
    let ms := set_bucket (<[bucketKeyStateTimestamp := BlobTime (lastState ms)]>
                            (bucket ms)) ms in
    let '(err, ms) := saveUsersToDisk w ms users in
    (events, err, ms)
  else (events, Some ErrStoreTimestamp, ms).

(** [func (ms *MetricSet) reportChanges(report, users) error] *)
Definition reportChanges (w : World) (ms : MetricSet) (users : list User)
  : list Reported * option error * MetricSet :=
  let '(added, removed, changed, ms) := compareUsers ms users in
  let events :=
    map (λ user, REvent (userEvent user eventTypeEvent eventActionUserAdded)) added
    ++ map (λ user, REvent (userEvent user eventTypeEvent eventActionUserRemoved)) removed
    ++ map (λ user, REvent (userEvent user eventTypeEvent eventActionUserChanged)) changed in
  if (0 <? Z.of_nat (length added)) || (0 <? Z.of_nat (length removed))
     || (0 <? Z.of_nat (length changed))
  then
    let '(err, ms) := saveUsersToDisk w ms users in
    (events, err, ms)
  else (events, None, ms).

(** The condition under which [Fetch] calls [reportState]. *)
Definition needsState (w : World) (ms : MetricSet) : bool :=
  let needsStateUpdate := period ms <? Since (clock_since w) (lastState ms) in
  needsStateUpdate || IsEmpty (cache ms).

Definition reportError (err : option error) : list Reported :=
  match err with
  | Some e => [RError e]
  | None => []
  end.

(** [func (ms *MetricSet) Fetch(report mb.ReporterV2)]: what was reported,
    in order, and the metricset afterwards. *)
Definition Fetch (w : World) (ms : MetricSet) : list Reported * MetricSet :=
  match GetUsers w with
  | None => ([RError ErrGetUsers], ms)
  | Some users =>
      let '(out, ms) :=
        if needsState w ms then
          let '(events, err, ms) := reportState w ms users in
          (events ++ reportError err, ms)
        else ([], ms) in
      let '(events, err, ms) := reportChanges w ms users in
      (out ++ events ++ reportError err, ms)
  end.

(** ** Construction *)

Inductive newError :=
  | ErrLoadBucket (key : string)    (* bucket.Load failed *)
  | ErrUnmarshalTimestamp           (* lastState.UnmarshalBinary failed *)
  | ErrDecodeUsers.                 (* error decoding users *)

(** [func (ms *MetricSet) restoreUsersFromDisk() (users []*User, err error)]:
    a key that was never stored loads as the blob of length 0. *)
Definition restoreUsersFromDisk (Load_ok : string → bool) (bucket : gmap string Blob)
  : newError + list User :=
  if Load_ok bucketKeyUsers then
    match bucket !! bucketKeyUsers with
    | None => inr []
    | Some (BlobUsers users) => inr users
    | Some (BlobTime _) => inl ErrDecodeUsers
    end
  else inl (ErrLoadBucket bucketKeyUsers).

(** [func New(base mb.BaseMetricSet) (mb.MetricSet, error)] on a platform
    that is supported, given the state period of the configuration and the
    bucket that was opened. *)
Definition New (Load_ok : string → bool) (statePeriod : Z) (bucket : gmap string Blob)
  : newError + MetricSet :=
  if Load_ok bucketKeyStateTimestamp then
    match
      match bucket !! bucketKeyStateTimestamp with
      | None => Some zeroTime
      | Some (BlobTime t) => Some t
      | Some (BlobUsers _) => None
      end
    with
    | None => inl ErrUnmarshalTimestamp
    | Some lastState =>
        match restoreUsersFromDisk Load_ok bucket with
        | inl err => inl err
        | inr users =>
            inr (mkMetricSet statePeriod (DiffAndUpdateCache ∅ users).2 bucket
                             lastState)
        end
    end
  else inl (ErrLoadBucket bucketKeyStateTimestamp).

(** ** The bucket and the metricset in step *)

(** Two caches hold the same fingerprints. *)
Definition sameFingerprints (c c' : gmap Z User) : Prop :=
  ∀ h, c !! h = None ↔ c' !! h = None.

(** The bucket holds the time of the last state and a list of users with
    the fingerprints of the cache. *)
Definition persisted (ms : MetricSet) : Prop :=
  bucket ms !! bucketKeyStateTimestamp = Some (BlobTime (lastState ms))
  ∧ ∃ users, bucket ms !! bucketKeyUsers = Some (BlobUsers users)
             ∧ sameFingerprints (cache ms) (cacheOf users).

End user.

(** ** Concrete inputs *)

Module examples.
Import login.

(** A host on which alice has uid 1000. *)
Definition host_Lookup (name : string) : option string :=
  if decide (name = "alice") then Some "1000" else None.
Definition host_Atoi (s : string) : option Z :=
  if decide (s = "1000") then Some 1000 else None.

Definition reader0 : UtmpFileReader := mkReader ∅ ∅.

(** [USER_PROCESS(tty=pts/0, user=alice, pid=42)] and [DEAD_PROCESS(tty=pts/0)] *)
Definition utmp_login : Utmp :=
  mkUtmp USER_PROCESS 42 "pts/0" "alice" "example.org" 1546300800000000000
         (16777343, 0, 0, 0).
Definition utmp_dead : Utmp :=
  mkUtmp DEAD_PROCESS 42 "pts/0" "" "" 1546300860000000000 (0, 0, 0, 0).

(** A [BOOT_TIME] record as the kernel writes it, and one on a terminal. *)
Definition utmp_boot : Utmp :=
  mkUtmp BOOT_TIME 0 "~" "reboot" "4.15.0" 1546300000000000000 (0, 0, 0, 0).
Definition utmp_boot_tty : Utmp :=
  mkUtmp BOOT_TIME 0 "tty1" "reboot" "" 1546300000000000000 (0, 0, 0, 0).

(** Three records of one file. *)
Definition utmp_A : Utmp :=
  mkUtmp USER_PROCESS 42 "pts/0" "alice" "" 1546300800000000000 (0, 0, 0, 0).
Definition utmp_B : Utmp :=
  mkUtmp DEAD_PROCESS 42 "pts/0" "" "" 1546300860000000000 (0, 0, 0, 0).
Definition utmp_C : Utmp :=
  mkUtmp USER_PROCESS 57 "pts/1" "alice" "" 1546300900000000000 (0, 0, 0, 0).
Definition file_ABC : File := mkFile [utmp_A; utmp_B; utmp_C] AtEOF true.

(** A directory with the single file /var/log/wtmp, of inode 11 and
    size 0. *)
Definition wtmp : string := "/var/log/wtmp".
Definition fs_empty_wtmp : FileSystem :=
  mkFS (Some [wtmp])
       (λ path, if decide (path = wtmp) then StatOk 11%N 0 else StatNotExist)
       (λ path, if decide (path = wtmp) then Some (mkFile [] AtEOF true) else None).

(** The file /var/log/wtmp, of inode 12, held the record A (384 bytes)
    when it was read last; the cursor says so. *)
Definition reader_A : UtmpFileReader :=
  mkReader {[ 12%N := mkFileRecord 12%N 384 utmp_A ]} ∅.

(** Now it holds A, B and C. *)
Definition fs_wtmp_ABC : FileSystem :=
  mkFS (Some [wtmp])
       (λ path, if decide (path = wtmp) then StatOk 12%N 1152 else StatNotExist)
       (λ path, if decide (path = wtmp) then Some file_ABC else None).

(** Or it holds A, B and the first 100 bytes of a third record: the
    decoder yields A and B and then fails. *)
Definition file_AB_truncated : File := mkFile [utmp_A; utmp_B] ReadFails true.
Definition fs_wtmp_truncated : FileSystem :=
  mkFS (Some [wtmp])
       (λ path, if decide (path = wtmp) then StatOk 12%N 868 else StatNotExist)
       (λ path, if decide (path = wtmp) then Some file_AB_truncated else None).

(** A rotated file /var/log/wtmp.1 that [os.Stat] fails on (permission
    denied, say) next to the unchanged /var/log/wtmp. *)
Definition wtmp1 : string := "/var/log/wtmp.1".
Definition fs_stat_fails : FileSystem :=
  mkFS (Some [wtmp; wtmp1])
       (λ path, if decide (path = wtmp) then StatOk 12%N 384
                else if decide (path = wtmp1) then StatError else StatNotExist)
       (λ path, if decide (path = wtmp) then Some (mkFile [utmp_A] AtEOF true)
                else None).

(** A run-level record as init writes it on the way from run level 5 to
    run level 0: the pid field holds '5' * 256 + '0'. *)
Definition utmp_runlevel_5_to_0 : Utmp :=
  mkUtmp RUN_LVL 13616 "~" "runlevel" "4.15.0" 1546300000000000000 (0, 0, 0, 0).

(** A login from 192.0.2.7. *)
Definition utmp_login_remote : Utmp :=
  mkUtmp USER_PROCESS 77 "pts/3" "bob" "192.0.2.7" 1546300800000000000
         (117571776, 0, 0, 0).

(** The file /var/log/wtmp is unchanged: inode 12, 384 bytes. *)
Definition fs_wtmp_unchanged : FileSystem :=
  mkFS (Some [wtmp])
       (λ path, if decide (path = wtmp) then StatOk 12%N 384 else StatNotExist)
       (λ path, if decide (path = wtmp) then Some (mkFile [utmp_A] AtEOF true)
                else None).

(** The file /var/log/wtmp was truncated to nothing. *)
Definition fs_wtmp_truncated_to_zero : FileSystem :=
  mkFS (Some [wtmp])
       (λ path, if decide (path = wtmp) then StatOk 12%N 0 else StatNotExist)
       (λ path, if decide (path = wtmp) then Some (mkFile [] AtEOF true) else None).

(** A file that cannot be rewound. *)
Definition file_A_no_seek : File := mkFile [utmp_A] AtEOF false.

(** The record an entry of zero bytes decodes to: its time is the Unix
    epoch. *)
Definition utmp_zero_bytes : Utmp := mkUtmp 0 0 "" "" "" 0 (0, 0, 0, 0).
Definition file_ZA : File := mkFile [utmp_zero_bytes; utmp_A] AtEOF true.

(** A reader with two cursors and one open session, and an order of
    [range] that is not the order of [map_to_list]. *)
Definition reader_two : UtmpFileReader :=
  mkReader (<[ 12%N := mkFileRecord 12%N 1152 utmp_C ]>
              {[ 13%N := mkFileRecord 13%N 384 utmp_A ]})
           {[ "pts/1" := loginRecordOf host_Lookup host_Atoi utmp_C ]}.
Definition range_backwards {K A} `{Countable K} (m : gmap K A) : list A :=
  reverse (map_to_list m).*2.

(** A bucket nothing was stored in yet, and one whose blob of cursors is
    damaged after its first value. *)
Definition bucket_empty : Bucket := mkBucket [] [] (λ _, true) (λ _, true).
Definition bucket_damaged : Bucket :=
  mkBucket [Some (mkFileRecord 12%N 384 utmp_A); None] [] (λ _, true) (λ _, true).

End examples.

Module user_examples.
Import user.

Definition alice_bash : User :=
  mkUser "alice" "x" 1000 1000 "Alice" "/home/alice" "/bin/bash".
Definition alice_zsh : User :=
  mkUser "alice" "x" 1000 1000 "Alice" "/home/alice" "/bin/zsh".
Definition alice_renamed : User :=
  mkUser "alice" "x" 1000 1000 "Alice Liddell" "/home/alice" "/bin/bash".
Definition bob : User :=
  mkUser "bob" "x" 1001 1001 "" "/home/bob" "/bin/bash".
Definition carol : User :=
  mkUser "carol" "x" 1002 1002 "" "/home/carol" "/bin/bash".

(** Two accounts with uid 0, before and after their shells change. *)
Definition root_sh : User := mkUser "root" "x" 0 0 "" "/root" "/bin/sh".
Definition root_bash : User := mkUser "root" "x" 0 0 "" "/root" "/bin/bash".
Definition toor_sh : User := mkUser "toor" "x" 0 0 "" "/root" "/bin/sh".
Definition toor_bash : User := mkUser "toor" "x" 0 0 "" "/root" "/bin/bash".

Definition hour : Z := 3600 * 10 ^ 9.
Definition t0 : Z := 1546300800 * 10 ^ 9.

(** A metricset with a state period of 12 hours whose last state was sent
    at [t0] and whose cache holds [users]. *)
Definition metricset (users : list User) : MetricSet :=
  mkMetricSet (12 * hour) (cacheOf users) ∅ t0.

(** A poll at time [now] that enumerates [users]; the store works. *)
Definition world (now : Z) (users : list User) : World :=
  mkWorld (Some users) now now "6ba7b810-9dad-11d1-80b4-00c04fd430c8" (λ _, true).

(** The same metricset after a state was sent at [t0] for alice alone and
    written to the bucket. *)
Definition metricset_synced : MetricSet :=
  mkMetricSet (12 * hour) (cacheOf [alice_bash])
    (<[bucketKeyUsers := BlobUsers [alice_bash]]>
       (<[bucketKeyStateTimestamp := BlobTime t0]> ∅))
    t0.

End user_examples.

(** * Properties of the login tailer *)

Section SessionFolding.
Import login.

Variable user_Lookup : string → option string.
Variable strconv_Atoi : string → option Z.

Abbreviation process := (processLoginRecord user_Lookup strconv_Atoi).
Abbreviation process_legacy := (legacy.processLoginRecord user_Lookup strconv_Atoi).
Abbreviation loginOf := (loginRecordOf user_Lookup strconv_Atoi).

Lemma initRecord_TTY utmp :
  TTY (initRecord utmp) = if decide (UtLine utmp ≠ "~") then UtLine utmp else "".
Proof. unfold initRecord. by destruct (decide _). Qed.

Lemma loginRecordOf_TTY utmp : TTY (loginOf utmp) = TTY (initRecord utmp).
Proof. reflexivity. Qed.

Lemma process_USER_PROCESS r utmp :
  UtType utmp = USER_PROCESS →
  process r utmp =
    (Some (loginOf utmp),
     set_loginSessions (<[TTY (initRecord utmp) := loginOf utmp]> (loginSessions r)) r).
Proof. intros Ht. unfold processLoginRecord. rewrite Ht. reflexivity. Qed.

Lemma process_DEAD_PROCESS r utmp :
  UtType utmp = DEAD_PROCESS →
  process r utmp =
    match loginSessions r !! TTY (initRecord utmp) with
    | Some savedRecord => (Some (logoutRecordOf savedRecord utmp), r)
    | None => (None, r)
    end.
Proof. intros Ht. unfold processLoginRecord. rewrite Ht. reflexivity. Qed.

Lemma process_BOOT_TIME r utmp :
  UtType utmp = BOOT_TIME →
  process r utmp =
    if bool_decide (UtLine utmp = "~") && bool_decide (UtUser utmp = "reboot")
    then (Some (set_RecType bootRecord (initRecord utmp)), set_loginSessions ∅ r)
    else (None, r).
Proof. intros Ht. unfold processLoginRecord. rewrite Ht. reflexivity. Qed.

Lemma process_legacy_BOOT_TIME r utmp :
  UtType utmp = BOOT_TIME →
  process_legacy r utmp =
    if bool_decide (UtLine utmp = "~") && bool_decide (UtUser utmp = "reboot")
    then (Some (set_RecType bootRecord (initRecord utmp)), set_loginSessions ∅ r)
    else (Some (set_RecType unknownRecord (initRecord utmp)), r).
Proof. intros Ht. unfold legacy.processLoginRecord. rewrite Ht. reflexivity. Qed.

(** The earlier reader treats [DEAD_PROCESS] records like the current one. *)
Lemma process_legacy_DEAD_PROCESS r utmp :
  UtType utmp = DEAD_PROCESS → process_legacy r utmp = process r utmp.
Proof.
  intros Ht. unfold legacy.processLoginRecord, processLoginRecord.
  rewrite Ht. reflexivity.
Qed.

(** C1, as amended: a dead-process record whose terminal line has an
    entry in the open-session table yields a user_logout event carrying the
    stored username, uid, pid, ip and hostname, and the table is left as it
    was, the entry included; after a user-process record followed by a
    dead-process record on the same terminal line the table holds the login
    record of that line. *)
Theorem C1_logout_enriched_session_kept :
  (∀ r utmp savedRecord,
     UtType utmp = DEAD_PROCESS →
     loginSessions r !! TTY (initRecord utmp) = Some savedRecord →
     ∃ logout,
       process r utmp = (Some logout, r)
       ∧ RecType logout = userLogoutRecord
       ∧ Username logout = Username savedRecord
       ∧ UID logout = UID savedRecord
       ∧ PID logout = PID savedRecord
       ∧ IP logout = IP savedRecord
       ∧ Hostname logout = Hostname savedRecord
       ∧ loginSessions (process r utmp).2 !! TTY (initRecord utmp) = Some savedRecord)
  ∧ (∀ r login dead,
       UtType login = USER_PROCESS →
       UtType dead = DEAD_PROCESS →
       UtLine dead = UtLine login →
       let r1 := (process r login).2 in
       (process r login).1 = Some (loginOf login)
       ∧ (process r1 dead).1 = Some (logoutRecordOf (loginOf login) dead)
       ∧ loginSessions (process r1 dead).2
         = <[TTY (initRecord login) := loginOf login]> (loginSessions r)
       ∧ loginSessions (process r1 dead).2 ≠ ∅).
Proof.
  split.
  - intros r utmp savedRecord Ht Hfound.
    exists (logoutRecordOf savedRecord utmp).
    rewrite process_DEAD_PROCESS, Hfound by done. simpl. done.
  - intros r login dead Hl Hd Hline. simpl.
    rewrite process_USER_PROCESS by done. simpl.
    rewrite process_DEAD_PROCESS by done. simpl.
    assert (TTY (initRecord dead) = TTY (initRecord login)) as ->
      by (rewrite !initRecord_TTY, Hline; done).
    rewrite lookup_insert_eq. simpl. repeat split.
    apply insert_non_empty.
Qed.

(** C3, as amended: for a boot-time record whose terminal line is "~" and
    whose user is "reboot", [processLoginRecord] produces a boot event and
    clears the open-session table; for any other boot-time record the
    current reader drops the record and leaves the table as it is, while the
    earlier reader produced an event of kind unknown. *)
Theorem C3_boot_time_records :
  ∀ r utmp,
    UtType utmp = BOOT_TIME →
    (UtLine utmp = "~" ∧ UtUser utmp = "reboot" →
       process r utmp
         = (Some (set_RecType bootRecord (initRecord utmp)), set_loginSessions ∅ r)
       ∧ loginSessions (process r utmp).2 = ∅
       ∧ process_legacy r utmp = process r utmp)
    ∧ (¬ (UtLine utmp = "~" ∧ UtUser utmp = "reboot") →
       process r utmp = (None, r)
       ∧ process_legacy r utmp
         = (Some (set_RecType unknownRecord (initRecord utmp)), r)).
Proof.
  intros r utmp Ht.
  rewrite process_BOOT_TIME, process_legacy_BOOT_TIME by done.
  split.
  - intros [Hl Hu]. rewrite !bool_decide_eq_true_2 by done. done.
  - intros Hn.
    destruct (decide (UtLine utmp = "~")) as [Hl|Hl];
      destruct (decide (UtUser utmp = "reboot")) as [Hu|Hu];
      try (exfalso; apply Hn; done).
    + rewrite (bool_decide_eq_true_2 _ Hl), (bool_decide_eq_false_2 _ Hu). done.
    + rewrite (bool_decide_eq_false_2 _ Hl). done.
    + rewrite (bool_decide_eq_false_2 _ Hl). done.
Qed.

End SessionFolding.

Section SessionFoldingExamples.
Import login examples.

Abbreviation process := (processLoginRecord host_Lookup host_Atoi).

(** C1, counterexample: after [USER_PROCESS(pts/0, alice, 42)] and
    [DEAD_PROCESS(pts/0)] a user_logout event was produced and the
    open-session table still holds the entry of pts/0: it is not empty. *)
Lemma C1_counterexample :
  let r1 := (process reader0 utmp_login).2 in
  let out := process r1 utmp_dead in
  (RecType <$> out.1) = Some userLogoutRecord
  ∧ (Username <$> out.1) = Some "alice"
  ∧ (Username <$> loginSessions out.2 !! "pts/0") = Some "alice"
  ∧ loginSessions out.2 ≠ ∅.
Proof.
  repeat split; try (vm_compute; reflexivity).
  intros H. apply (f_equal (λ m : gmap string LoginRecord, m !! "pts/0")) in H.
  vm_compute in H. discriminate H.
Qed.

Lemma C1_witness :
  ∃ logout,
    process (process reader0 utmp_login).2 utmp_dead
      = (Some logout, (process reader0 utmp_login).2)
    ∧ RecType logout = userLogoutRecord
    ∧ Username logout = "alice"
    ∧ UID logout = 1000
    ∧ PID logout = 42
    ∧ IP logout = Some [127; 0; 0; 1]
    ∧ Hostname logout = "example.org".
Proof.
  destruct (proj1 (C1_logout_enriched_session_kept host_Lookup host_Atoi)
              (process reader0 utmp_login).2 utmp_dead
              (loginRecordOf host_Lookup host_Atoi utmp_login)
              eq_refl eq_refl)
    as (logout & Hp & Ht & Hu & Hi & Hpid & Hip & Hh & _).
  exists logout. repeat split; assumption.
Defined.

(** C3, counterexample: a boot-time record on terminal line tty1 is
    dropped by the current reader: no event, of kind unknown or other. *)
Lemma C3_counterexample :
  UtType utmp_boot_tty = BOOT_TIME
  ∧ UtLine utmp_boot_tty ≠ "~"
  ∧ process reader0 utmp_boot_tty = (None, reader0).
Proof. repeat split. discriminate. Qed.

Lemma C3_witness :
  process reader0 utmp_boot_tty = (None, reader0)
  ∧ legacy.processLoginRecord host_Lookup host_Atoi reader0 utmp_boot_tty
    = (Some (set_RecType unknownRecord (initRecord utmp_boot_tty)), reader0).
Proof.
  apply (C3_boot_time_records host_Lookup host_Atoi reader0 utmp_boot_tty eq_refl).
  intros [H _]. discriminate H.
Defined.

End SessionFoldingExamples.

(** * Resuming after the last known record *)

Section Resume.
Import login.

(** In utmp.go the comparison never succeeds: a [*Utmp] is compared with a
    [Utmp]. *)
Lemma DeepEqual_pointer_value (utmp last : Utmp) :
  DeepEqual (PtrUtmp utmp) (ValUtmp last) = false.
Proof. reflexivity. Qed.

Lemma readPass_reached last pending utmpRecords :
  readPass last pending true utmpRecords = (true, utmpRecords ++ pending).
Proof.
  revert utmpRecords.
  induction pending as [|utmp pending IH]; intros utmpRecords; simpl.
  - by rewrite app_nil_r.
  - destruct last; simpl; rewrite IH, <- app_assoc; done.
Qed.

Lemma readPass_not_reached last pending utmpRecords :
  readPass (Some last) pending false utmpRecords = (false, utmpRecords).
Proof.
  induction pending as [|utmp pending IH]; simpl; [done|]. exact IH.
Qed.

(** With a nil record [readAfter] returns the whole file. *)
Lemma readAfter_nil f :
  stream_end f = AtEOF → readAfter f None = Ok (records f).
Proof.
  intros He. unfold readAfter. simpl.
  rewrite readPass_reached, He. done.
Qed.

(** C6, what the code does instead: read with a last known record, the
    current [readAfter] returns every record of the file, whether or not
    (and wherever) the last known record occurs in it; the records up to and
    including the last known one are returned again. *)
Theorem C6_readAfter_rereads_whole_file f last :
  stream_end f = AtEOF → seek_ok f = true →
  readAfter f (Some last) = Ok (records f).
Proof.
  intros He Hs. unfold readAfter.
  rewrite bool_decide_eq_false_2 by done.
  rewrite readPass_not_reached, He.
  rewrite (bool_decide_eq_true_2 (Some last ≠ None)) by done.
  simpl. rewrite Hs, readPass_reached. done.
Qed.

Lemma legacy_readPass_reached last pending utmpRecords :
  legacy.readPass last pending true utmpRecords = (true, utmpRecords ++ pending).
Proof.
  revert utmpRecords.
  induction pending as [|utmp pending IH]; intros utmpRecords; simpl.
  - by rewrite app_nil_r.
  - destruct last as [last|]; simpl.
    + destruct (bool_decide (utmp = last)); rewrite IH, <- app_assoc; done.
    + rewrite IH, <- app_assoc; done.
Qed.

Lemma legacy_readPass_absent last pending :
  last ∉ pending →
  legacy.readPass (Some last) pending false [] = (false, []).
Proof.
  induction pending as [|utmp pending IH]; intros Hn; simpl; [done|].
  rewrite bool_decide_eq_false_2.
  - apply IH. intros H. apply Hn. by right.
  - intros ->. apply Hn. by left.
Qed.

Lemma legacy_readPass_found last before after :
  last ∉ before →
  legacy.readPass (Some last) (before ++ last :: after) false [] = (true, after).
Proof.
  induction before as [|utmp before IH]; intros Hn; simpl.
  - rewrite bool_decide_eq_true_2 by done. by rewrite legacy_readPass_reached.
  - rewrite bool_decide_eq_false_2.
    + apply IH. intros H. apply Hn. by right.
    + intros ->. apply Hn. by left.
Qed.

Lemma legacy_readAfter_absent f last :
  stream_end f = AtEOF → last ∉ records f →
  legacy.readAfter f (Some last) = Ok (records f).
Proof.
  intros He Hn. unfold legacy.readAfter.
  rewrite legacy_readPass_absent, He by done. simpl.
  by rewrite legacy_readPass_reached.
Qed.

(** The earlier [readAfter], on a file of records read from utmp entries
    that ends at end of file, resumes after the first record equal to the
    last known one and returns the whole file when there is none; in
    particular it returns the whole file when the last known record is the
    zero [Utmp] of a cursor that was made for an empty file, also when the
    file holds a record decoded from zero bytes. *)
Lemma legacy_readAfter_resumes f last :
  stream_end f = AtEOF →
  Forall readFromFile (records f) →
  (∀ before after,
     records f = before ++ last :: after → last ∉ before →
     legacy.readAfter f (Some last) = Ok after)
  ∧ (last ∉ records f → legacy.readAfter f (Some last) = Ok (records f))
  ∧ legacy.readAfter f (Some Utmp_zero) = Ok (records f).
Proof.
  intros He Hfile. split; [|split].
  - intros before after Hr Hn. unfold legacy.readAfter.
    rewrite Hr, legacy_readPass_found, He by done. done.
  - by apply legacy_readAfter_absent.
  - apply legacy_readAfter_absent; [done|]. intros Hin.
    by apply (proj1 (Forall_forall _ _) Hfile _ Hin).
Qed.

End Resume.

Section ResumeExamples.
Import login examples.

(** C6 at the failing input: a file holding the records A, B, C read with
    last known record A. The claim asks for the records after A, that is B
    and C; the current [readAfter] returns A, B and C. *)
Lemma C6_witness :
  readAfter file_ABC (Some utmp_A) = Ok [utmp_A; utmp_B; utmp_C].
Proof.
  apply (C6_readAfter_rereads_whole_file file_ABC utmp_A); reflexivity.
Defined.

(** The earlier [readAfter] on the same input returns B and C. *)
Lemma legacy_readAfter_ABC :
  legacy.readAfter file_ABC (Some utmp_A) = Ok [utmp_B; utmp_C].
Proof. reflexivity. Qed.

End ResumeExamples.

(** * One poll of the login tailer *)

Section PollProperties.
Import login.

Variable user_Lookup : string → option string.
Variable strconv_Atoi : string → option Z.
Variable fs : FileSystem.

Abbreviation process := (processLoginRecord user_Lookup strconv_Atoi).
Abbreviation loop := (pollLoop user_Lookup strconv_Atoi fs).
Abbreviation body := (pollBody user_Lookup strconv_Atoi fs).
Abbreviation poll := (ReadNew user_Lookup strconv_Atoi fs).
Abbreviation inodeOf := (statInode fs).

Lemma process_fileRecords r utmp :
  fileRecords (process r utmp).2 = fileRecords r.
Proof.
  unfold processLoginRecord.
  repeat (match goal with
          | |- context [if ?b then _ else _] => destruct b
          | |- context [match ?o with Some _ => _ | None => _ end] => destruct o
          end; simpl; try done).
Qed.

Lemma processAll_fileRecords path utmpRecords r loginRecords :
  fileRecords (processAll user_Lookup strconv_Atoi path utmpRecords r loginRecords).1
  = fileRecords r.
Proof.
  revert r loginRecords.
  induction utmpRecords as [|utmp rest IH]; intros r loginRecords; simpl; [done|].
  pose proof (process_fileRecords r utmp) as Hp.
  destruct (process r utmp) as [[loginRecord|] r1]; simpl in *;
    rewrite IH; exact Hp.
Qed.

Lemma updateFileRecord_lookup r inode size utmpRecords :
  fileRecords (updateFileRecord r inode size utmpRecords) !! inode
  = Some (mkFileRecord inode size
            match utmpRecords with
            | Some (u :: us) => List.last (u :: us) Utmp_zero
            | _ => carriedLastUtmp (fileRecords r !! inode)
            end).
Proof.
  unfold updateFileRecord. simpl. rewrite lookup_insert_eq.
  destruct utmpRecords as [[|u us]|]; reflexivity.
Qed.

Lemma updateFileRecord_lookup_ne r inode size utmpRecords i :
  i ≠ inode →
  fileRecords (updateFileRecord r inode size utmpRecords) !! i = fileRecords r !! i.
Proof. intros Hne. unfold updateFileRecord. simpl. by rewrite lookup_insert_ne. Qed.

Lemma updateFileRecord_nil_carried r inode size i :
  carriedLastUtmp (fileRecords (updateFileRecord r inode size None) !! i)
  = carriedLastUtmp (fileRecords r !! i).
Proof.
  destruct (decide (i = inode)) as [->|Hne].
  - by rewrite updateFileRecord_lookup.
  - by rewrite updateFileRecord_lookup_ne.
Qed.

Lemma pollLoop_cons path paths fr :
  loop (path :: paths) fr =
    match Stat fs path with
    | StatNotExist => loop paths fr
    | StatError => (fr, Some (ErrStat path))
    | StatOk inode newSize =>
        let found := fileRecords (reader fr) !! inode in
        if negb (isKnownFile found newSize) && (newSize =? 0) then
          loop paths
            (mkFrame (updateFileRecord (reader fr) inode newSize None)
                     (inodes fr ++ [inode]) (deferred fr) (loginRecords fr))
        else if negb (isKnownFile found newSize) || negb (newSize =? oldSizeOf found) then
          match readFile fs path found newSize with
          | Err e =>
              (mkFrame (reader fr) (inodes fr ++ [inode])
                       (deferred fr ++ [mkDeferred inode newSize []])
                       (loginRecords fr),
               Some e)
          | Ok utmpRecords =>
              let out := processAll user_Lookup strconv_Atoi path utmpRecords
                                    (reader fr) (loginRecords fr) in
              loop paths
                (mkFrame out.1 (inodes fr ++ [inode])
                         (deferred fr ++ [mkDeferred inode newSize utmpRecords])
                         out.2)
          end
        else loop paths (mkFrame (reader fr) (inodes fr ++ [inode]) (deferred fr)
                                 (loginRecords fr))
    end.
Proof.
  simpl. destruct (Stat fs path) as [inode newSize| |]; try reflexivity.
  destruct (negb _ && _); [reflexivity|].
  destruct (negb _ || _); [|reflexivity].
  destruct (readFile _ _ _ _) as [utmpRecords|e]; [|reflexivity].
  destruct (processAll _ _ _ _ _ _); reflexivity.
Qed.

(** A read that succeeds returns at least one record. *)
Lemma readFile_Ok_nonempty path found newSize utmpRecords :
  readFile fs path found newSize = Ok utmpRecords → utmpRecords ≠ [].
Proof.
  unfold readFile. destruct (Open fs path) as [f|]; [|done].
  destruct (readAfter f _) as [[|u us]|e]; try done.
  intros [= <-]. done.
Qed.

(** Leaving the loop normally over a prefix of the paths, the poll goes on
    with the rest. *)
Lemma pollLoop_app pre post fr frp :
  loop pre fr = (frp, None) → loop (pre ++ post) fr = loop post frp.
Proof.
  revert fr. induction pre as [|path pre IH]; intros fr.
  - simpl. by intros [= ->].
  - rewrite <- app_comm_cons, !pollLoop_cons.
    destruct (Stat fs path) as [inode newSize| |]; [|by apply IH|done].
    simpl. destruct (negb _ && _); [by apply IH|].
    destruct (negb _ || _); [|by apply IH].
    destruct (readFile _ _ _ _) as [utmpRecords|e]; [by apply IH|done].
Qed.

(** What a run of the loop does to the frame. *)
Lemma pollLoop_frame paths fr fr' err :
  loop paths fr = (fr', err) →
  (∃ pre post, paths = pre ++ post
                ∧ inodes fr' = inodes fr ++ omap inodeOf pre
                ∧ (err = None → post = []))
  ∧ (∃ ds, deferred fr' = deferred fr ++ ds
            ∧ (∀ d, d ∈ ds → d_inode d ∈ omap inodeOf paths)
            ∧ (∀ ds1 d ds2, ds = ds1 ++ d :: ds2 → d_records d = [] → ds2 = []))
  ∧ (∀ i, i ∉ omap inodeOf paths →
          fileRecords (reader fr') !! i = fileRecords (reader fr) !! i)
  ∧ (∀ i, carriedLastUtmp (fileRecords (reader fr') !! i)
          = carriedLastUtmp (fileRecords (reader fr) !! i)).
Proof.
  revert fr. induction paths as [|path paths IH]; intros fr.
  - simpl. intros [= <- <-]. repeat split.
    + exists [], []. simpl. by rewrite app_nil_r.
    + exists []. rewrite app_nil_r. repeat split.
      * intros d Hd. by apply elem_of_nil in Hd.
      * intros ds1 d ds2 H. by destruct ds1.
  - rewrite pollLoop_cons.
    destruct (Stat fs path) as [inode newSize| |] eqn:Hst.
    2:{ intros Hl. destruct (IH _ Hl) as ((pre & post & -> & Hi & Hp) & Hd & Hf & Hc).
        repeat split; try done.
        - exists (path :: pre), post. simpl. unfold statInode. by rewrite Hst.
        - simpl. unfold statInode at 1. by rewrite Hst.
        - simpl. unfold statInode at 1. by rewrite Hst. }
    2:{ intros [= <- <-]. repeat split; try done.
        - exists [], (path :: paths). simpl. by rewrite app_nil_r.
        - exists []. rewrite app_nil_r. repeat split.
          + intros d Hd. by apply elem_of_nil in Hd.
          + intros ds1 d ds2 H. by destruct ds1. }
    assert (Hcons : ∀ (l : list string), omap inodeOf (path :: l) = inode :: omap inodeOf l).
    { intros l. simpl. unfold statInode at 1. by rewrite Hst. }
    assert (Hstep : ∀ fr1 : Frame,
      inodes fr1 = inodes fr ++ [inode] →
      (∃ ds0, deferred fr1 = deferred fr ++ ds0
              ∧ (∀ d, d ∈ ds0 → d_inode d = inode ∧ d_records d ≠ [])) →
      (∀ i, i ≠ inode → fileRecords (reader fr1) !! i = fileRecords (reader fr) !! i) →
      (∀ i, carriedLastUtmp (fileRecords (reader fr1) !! i)
            = carriedLastUtmp (fileRecords (reader fr) !! i)) →
      loop paths fr1 = (fr', err) →
      (∃ pre post, path :: paths = pre ++ post
                    ∧ inodes fr' = inodes fr ++ omap inodeOf pre
                    ∧ (err = None → post = []))
      ∧ (∃ ds, deferred fr' = deferred fr ++ ds
                ∧ (∀ d, d ∈ ds → d_inode d ∈ omap inodeOf (path :: paths))
                ∧ (∀ ds1 d ds2, ds = ds1 ++ d :: ds2 → d_records d = [] → ds2 = []))
      ∧ (∀ i, i ∉ omap inodeOf (path :: paths) →
              fileRecords (reader fr') !! i = fileRecords (reader fr) !! i)
      ∧ (∀ i, carriedLastUtmp (fileRecords (reader fr') !! i)
              = carriedLastUtmp (fileRecords (reader fr) !! i))).
    { intros fr1 Hi1 (ds0 & Hd1 & Hds0) Hf1 Hc1 Hl.
      destruct (IH _ Hl) as ((pre & post & -> & Hi & Hp) & (ds & Hd & Hin & Hlast) & Hf & Hc).
      repeat split.
      - exists (path :: pre), post. rewrite Hcons, Hi, Hi1, <- app_assoc. done.
      - exists (ds0 ++ ds). rewrite Hd, Hd1, <- app_assoc. repeat split.
        + intros d [Hd0|Hd']%elem_of_app; rewrite Hcons.
          * destruct (Hds0 d Hd0) as [-> _]. by left.
          * right. by apply Hin.
        + intros ds1 d ds2 Heq Hnil.
          assert (Hall : Forall (λ d, d_records d ≠ []) ds0)
            by (apply Forall_forall; intros x Hx; by apply Hds0).
          clear Hds0 Hd1. revert ds1 Heq.
          induction Hall as [|d0 ds0' Hd0 _ IH0]; intros ds1 Heq.
          * simpl in Heq. by eapply Hlast.
          * destruct ds1 as [|d1 ds1]; simpl in Heq.
            -- injection Heq as -> _. done.
            -- injection Heq as -> Heq. by eapply IH0.
      - intros i Hn. rewrite Hcons in Hn.
        rewrite Hf, Hf1; [done| |].
        + intros ->. apply Hn. by left.
        + intros Hin'. apply Hn. by right.
      - intros i. by rewrite Hc, Hc1. }
    cbv zeta. destruct (negb _ && _).
    { apply Hstep; cbn [reader inodes deferred loginRecords]; try done.
      - exists []. rewrite app_nil_r. split; [done|].
        intros d Hd. by apply elem_of_nil in Hd.
      - intros i Hne. by apply updateFileRecord_lookup_ne.
      - intros i. apply updateFileRecord_nil_carried. }
    destruct (negb _ || _).
    2:{ apply Hstep; cbn [reader inodes deferred loginRecords]; try done.
        exists []. rewrite app_nil_r. split; [done|].
        intros d Hd. by apply elem_of_nil in Hd. }
    destruct (readFile _ _ _ _) as [utmpRecords|e] eqn:Hread.
    + apply Hstep; cbn [reader inodes deferred loginRecords].
      * done.
      * eexists [_]. split; [done|]. intros d ->%list_elem_of_singleton.
        cbn [d_inode d_records]. split; [done|]. by eapply readFile_Ok_nonempty.
      * intros i _. by rewrite processAll_fileRecords.
      * intros i. by rewrite processAll_fileRecords.
    + intros [= <- <-]. cbn [reader inodes deferred loginRecords].
      repeat split; try done.
      * exists [path], paths. rewrite Hcons. done.
      * eexists [_]. split; [done|]. rewrite Hcons. split.
        -- intros d ->%list_elem_of_singleton. cbn [d_inode]. by left.
        -- intros ds1 d ds2 Heq _.
           destruct ds1 as [|? [|? ?]]; simpl in Heq; try done.
           by injection Heq as _ <-.
Qed.

(** ** The deferred calls *)

Lemma deleteOldRecords_lookup r existingInodes i :
  fileRecords (deleteOldRecords r existingInodes) !! i
  = if decide (i ∈ existingInodes) then fileRecords r !! i else None.
Proof.
  unfold deleteOldRecords. cbn [fileRecords set_fileRecords].
  destruct (decide (i ∈ existingInodes)) as [Hin|Hn].
  - destruct (fileRecords r !! i) as [c|] eqn:Hl.
    + apply map_lookup_filter_Some. split; [done|]. simpl.
      by apply bool_decide_eq_true_2.
    + apply map_lookup_filter_None. left. done.
  - apply map_lookup_filter_None. right. intros c _. simpl.
    by rewrite bool_decide_eq_false_2.
Qed.

Lemma updates_lookup_other (ds : list Deferred) r i :
  i ∉ d_inode <$> ds →
  fileRecords
    (foldl (λ r d, updateFileRecord r (d_inode d) (d_size d) (Some (d_records d))) r ds)
    !! i
  = fileRecords r !! i.
Proof.
  revert r. induction ds as [|d ds IH]; intros r Hn; simpl; [done|].
  rewrite fmap_cons, not_elem_of_cons in Hn. destruct Hn as [Hne Hn].
  rewrite IH by done. by apply updateFileRecord_lookup_ne.
Qed.

(** The deferred update made first for an inode is the one that stays. *)
Lemma runDeferred_first ds1 d ds2 r :
  d_inode d ∉ d_inode <$> ds1 →
  fileRecords (runDeferred (ds1 ++ d :: ds2) r) !! d_inode d
  = Some (mkFileRecord (d_inode d) (d_size d)
            match d_records d with
            | [] => carriedLastUtmp (fileRecords (runDeferred ds2 r) !! d_inode d)
            | _ => List.last (d_records d) Utmp_zero
            end).
Proof.
  intros Hn. unfold runDeferred.
  rewrite reverse_app, reverse_cons, <- app_assoc, !foldl_app.
  rewrite updates_lookup_other.
  2:{ intros Hin. apply Hn. by rewrite fmap_reverse, elem_of_reverse in Hin. }
  cbn [foldl]. rewrite updateFileRecord_lookup.
  destruct (d_records d); reflexivity.
Qed.

Lemma runDeferred_other ds r i :
  i ∉ d_inode <$> ds →
  fileRecords (runDeferred ds r) !! i = fileRecords r !! i.
Proof.
  intros Hn. unfold runDeferred. apply updates_lookup_other.
  intros Hin. apply Hn. by rewrite fmap_reverse, elem_of_reverse in Hin.
Qed.

(** The cursor table a poll leaves behind. *)
Lemma ReadNew_lookup r i :
  fileRecords (poll r).2 !! i
  = if decide (i ∈ inodes (body r).1)
    then fileRecords (runDeferred (deferred (body r).1) (reader (body r).1)) !! i
    else None.
Proof.
  unfold ReadNew. destruct (body r) as [fr [e|]]; simpl;
    apply deleteOldRecords_lookup.
Qed.

Lemma ReadNew_result r :
  (poll r).1 = match (body r).2 with
               | Some e => Err e
               | None => Ok (loginRecords (body r).1)
               end.
Proof. unfold ReadNew. by destruct (body r) as [fr [e|]]. Qed.

Lemma readStarted_true found newSize :
  readStarted found newSize = true →
  negb (isKnownFile found newSize) && (newSize =? 0) = false
  ∧ negb (isKnownFile found newSize) || negb (newSize =? oldSizeOf found) = true.
Proof.
  unfold readStarted. cbv zeta. intros H%andb_true_iff. destruct H as [H1 H2].
  split; [|done]. by apply negb_true_iff.
Qed.

(** ** C8: an empty file seen for the first time *)

(** C8: when the poll comes to a path whose inode has no cursor and whose
    size is 0, it stores the cursor with size 0 and the zero last record and
    goes on with the next path: no read is started (no cursor update is
    deferred, the file is not opened) and no login record is added. If the
    inode was unseen when the poll began and no other path of the poll has
    it, this is the cursor the poll leaves for that inode. *)
Theorem C8_new_empty_file_recorded_not_read :
  (∀ path rest fr inode,
     Stat fs path = StatOk inode 0 →
     fileRecords (reader fr) !! inode = None →
     loop (path :: rest) fr
     = loop rest
         (mkFrame
            (set_fileRecords
               (<[inode := mkFileRecord inode 0 Utmp_zero]> (fileRecords (reader fr)))
               (reader fr))
            (inodes fr ++ [inode]) (deferred fr) (loginRecords fr)))
  ∧ (∀ r paths pre path post frp inode,
       Glob fs = Some paths →
       sortReverse paths = pre ++ path :: post →
       loop pre (mkFrame r [] [] []) = (frp, None) →
       Stat fs path = StatOk inode 0 →
       fileRecords r !! inode = None →
       inode ∉ omap inodeOf (pre ++ post) →
       fileRecords (poll r).2 !! inode = Some (mkFileRecord inode 0 Utmp_zero)).
Proof.
  assert (Hstep : ∀ path rest fr inode,
    Stat fs path = StatOk inode 0 →
    fileRecords (reader fr) !! inode = None →
    loop (path :: rest) fr
    = loop rest
        (mkFrame
           (set_fileRecords
              (<[inode := mkFileRecord inode 0 Utmp_zero]> (fileRecords (reader fr)))
              (reader fr))
           (inodes fr ++ [inode]) (deferred fr) (loginRecords fr))).
  { intros path rest fr inode Hst Hnone.
    rewrite pollLoop_cons, Hst. cbv zeta. rewrite Hnone.
    unfold updateFileRecord. rewrite Hnone. reflexivity. }
  split; [exact Hstep|].
  intros r paths pre path post frp inode Hg Hs Hpre Hst Hnone Hn.
  rewrite omap_app, not_elem_of_app in Hn. destruct Hn as [Hnpre Hnpost].
  destruct (pollLoop_frame _ _ _ _ Hpre) as (_ & (ds0 & Hd0 & Hin0 & _) & Hf0 & _).
  cbn [deferred reader inodes] in Hd0, Hf0.
  assert (Hfrp : fileRecords (reader frp) !! inode = None)
    by (rewrite Hf0 by done; done).
  rewrite ReadNew_lookup. unfold pollBody. rewrite Hg, Hs.
  rewrite (pollLoop_app _ _ _ _ Hpre), (Hstep _ _ _ _ Hst Hfrp).
  destruct (loop post _) as [fr' err] eqn:Hl.
  destruct (pollLoop_frame _ _ _ _ Hl) as ((p1 & p2 & _ & Hi & _) & (ds & Hd & Hin & _) & Hf & _).
  cbn [deferred reader inodes fileRecords set_fileRecords fst] in *.
  rewrite decide_True by (rewrite Hi; set_solver).
  rewrite runDeferred_other.
  - rewrite Hf by done. by rewrite lookup_insert_eq.
  - rewrite Hd, Hd0, fmap_app, not_elem_of_app. simpl.
    split; intros (d & -> & Hdin)%list_elem_of_fmap; [apply Hnpre|apply Hnpost]; auto.
Qed.

(** ** C7: the cursor of a file whose read was started *)

(** C7, as amended: when the poll starts reading a file (the first read it
    starts for that inode), the cursor the poll leaves for the inode has the
    new size, whether the poll then succeeds or returns an error; its last
    record is the last record the read returned when the read succeeded, and
    otherwise (the file could not be opened, the read failed, even after
    some records were decoded, or it returned no record) the last record of
    the cursor the inode had when the poll began, the zero record if it had
    none. *)
Theorem C7_cursor_updated_once_read_started :
  ∀ r paths pre path post frp inode newSize,
    Glob fs = Some paths →
    sortReverse paths = pre ++ path :: post →
    loop pre (mkFrame r [] [] []) = (frp, None) →
    Stat fs path = StatOk inode newSize →
    readStarted (fileRecords (reader frp) !! inode) newSize = true →
    inode ∉ d_inode <$> deferred frp →
    fileRecords (poll r).2 !! inode
    = Some (mkFileRecord inode newSize
              match recordsRead (readFile fs path (fileRecords (reader frp) !! inode)
                                          newSize) with
              | [] => carriedLastUtmp (fileRecords r !! inode)
              | utmpRecords => List.last utmpRecords Utmp_zero
              end).
Proof.
  intros r paths pre path post frp inode newSize Hg Hs Hpre Hst Hrs Hfirst.
  destruct (pollLoop_frame _ _ _ _ Hpre) as (_ & _ & _ & Hc0).
  cbn [reader] in Hc0.
  destruct (readStarted_true _ _ Hrs) as [Hc1 Hc2].
  rewrite ReadNew_lookup. unfold pollBody. rewrite Hg, Hs.
  rewrite (pollLoop_app _ _ _ _ Hpre), pollLoop_cons, Hst. cbv zeta.
  rewrite Hc1, Hc2.
  destruct (readFile _ _ _ _) as [utmpRecords|e] eqn:Hread; cbn [recordsRead].
  - pose proof (readFile_Ok_nonempty _ _ _ _ Hread) as Hne.
    destruct (loop post _) as [fr' err] eqn:Hl.
    destruct (pollLoop_frame _ _ _ _ Hl)
      as ((p1 & p2 & _ & Hi & _) & (ds & Hd & _ & _) & _ & _).
    cbn [deferred reader inodes fst] in *.
    rewrite decide_True by (rewrite Hi; set_solver).
    rewrite Hd, <- app_assoc. simpl.
    rewrite (runDeferred_first (deferred frp) (mkDeferred inode newSize utmpRecords) ds)
      by done.
    cbn [d_inode d_size d_records]. destruct utmpRecords; done.
  - cbn [deferred reader inodes fst].
    rewrite decide_True by set_solver.
    rewrite (runDeferred_first (deferred frp) (mkDeferred inode newSize []) []) by done.
    cbn [d_inode d_size d_records]. unfold runDeferred. simpl.
    by rewrite Hc0.
Qed.

(** ** C10: the cleanup after an early return *)

(** C10: the cursors a poll leaves are those of the inodes it observed
    before it returned: when [ReadNew] returns an error, the inodes observed
    are those of the paths the loop got through, and every cursor of another
    inode is deleted; when [os.Stat] fails on a path, these are the inodes
    of the paths before it; when the pattern cannot be expanded, every
    cursor is deleted. *)
Theorem C10_early_return_deletes_unobserved_cursors :
  ∀ r,
    (Glob fs = None → poll r = (Err ErrGlob, set_fileRecords ∅ r))
    ∧ (∀ paths pre path post frp,
         Glob fs = Some paths →
         sortReverse paths = pre ++ path :: post →
         loop pre (mkFrame r [] [] []) = (frp, None) →
         Stat fs path = StatError →
         (poll r).1 = Err (ErrStat path)
         ∧ ∀ i, i ∉ omap inodeOf pre → fileRecords (poll r).2 !! i = None)
    ∧ (∀ e, (poll r).1 = Err e →
         ∃ pre post,
           default [] (sortReverse <$> Glob fs) = pre ++ post
           ∧ inodes (body r).1 = omap inodeOf pre
           ∧ ∀ i, i ∉ omap inodeOf pre → fileRecords (poll r).2 !! i = None).
Proof.
  intros r. split; [|split].
  - intros Hg. unfold ReadNew, pollBody. rewrite Hg.
    cbn [deferred reader inodes]. f_equal.
    unfold deleteOldRecords, set_fileRecords. f_equal.
    apply map_eq. intros i. rewrite lookup_empty.
    apply map_lookup_filter_None. right. intros c _ Hb.
    apply bool_decide_eq_true_1 in Hb. by apply elem_of_nil in Hb.
  - intros paths pre path post frp Hg Hs Hpre Hst. split.
    + rewrite ReadNew_result. unfold pollBody. rewrite Hg, Hs.
      rewrite (pollLoop_app _ _ _ _ Hpre), pollLoop_cons, Hst. done.
    + intros i Hn. rewrite ReadNew_lookup. unfold pollBody. rewrite Hg, Hs.
      rewrite (pollLoop_app _ _ _ _ Hpre), pollLoop_cons, Hst. cbn [fst].
      destruct (pollLoop_frame _ _ _ _ Hpre) as ((p1 & p2 & Hpp & Hi & Hnil) & _).
      rewrite (Hnil eq_refl), app_nil_r in Hpp. subst p1. cbn [inodes] in Hi.
      simpl in Hi. rewrite decide_False; [done|]. by rewrite Hi.
  - intros e He. rewrite ReadNew_result in He.
    destruct (Glob fs) as [paths|] eqn:Hg.
    + destruct (body r) as [fr' err] eqn:Hb. unfold pollBody in Hb.
      rewrite Hg in Hb.
      destruct (pollLoop_frame _ _ _ _ Hb) as ((pre & post & Hpp & Hi & _) & _).
      exists pre, post. cbn [inodes fst] in *. simpl in Hi. repeat split; try done.
      intros i Hn. rewrite ReadNew_lookup. unfold pollBody. rewrite Hg, Hb.
      cbn [fst]. rewrite decide_False; [done|]. by rewrite Hi.
    + exists [], []. repeat split.
      * unfold pollBody. by rewrite Hg.
      * intros i _. rewrite ReadNew_lookup. unfold pollBody. rewrite Hg.
        cbn [fst inodes]. rewrite decide_False; [done|]. by intros ?%elem_of_nil.
Qed.

End PollProperties.

Section PollExamples.
Import login examples.

Abbreviation poll_on := (ReadNew host_Lookup host_Atoi).

Lemma C8_witness :
  fileRecords (poll_on fs_empty_wtmp reader0).2 !! 11%N
  = Some (mkFileRecord 11%N 0 Utmp_zero).
Proof.
  apply (proj2 (C8_new_empty_file_recorded_not_read host_Lookup host_Atoi fs_empty_wtmp)
           reader0 [wtmp] [] wtmp [] (mkFrame reader0 [] [] []) 11%N);
    try reflexivity.
  apply not_elem_of_nil.
Defined.

(** The whole poll over the empty new file: no login record, no error. *)
Lemma ReadNew_empty_new_file :
  (poll_on fs_empty_wtmp reader0).1 = Ok [].
Proof. reflexivity. Qed.

(** C7, counterexample: the file grew and now ends in a truncated record.
    The read decodes A and B and fails on the rest; the poll returns the
    read error; the cursor has the new size 868 and its last record is A,
    the record of the previous cursor, not B, the last record decoded in
    this read. *)
Lemma C7_counterexample :
  Open fs_wtmp_truncated wtmp = Some file_AB_truncated
  ∧ records file_AB_truncated = [utmp_A; utmp_B]
  ∧ (poll_on fs_wtmp_truncated reader_A).1 = Err (ErrReadFile wtmp ErrReadEntry)
  ∧ fileRecords (poll_on fs_wtmp_truncated reader_A).2 !! 12%N
    = Some (mkFileRecord 12%N 868 utmp_A)
  ∧ utmp_A ≠ utmp_B.
Proof. repeat split; try (vm_compute; reflexivity). discriminate. Qed.

Lemma C7_witness :
  fileRecords (poll_on fs_wtmp_ABC reader_A).2 !! 12%N
  = Some (mkFileRecord 12%N 1152 utmp_C).
Proof.
  apply (C7_cursor_updated_once_read_started host_Lookup host_Atoi fs_wtmp_ABC
           reader_A [wtmp] [] wtmp [] (mkFrame reader_A [] [] []) 12%N 1152);
    try reflexivity.
  apply not_elem_of_nil.
Defined.

Lemma C10_witness :
  (poll_on fs_stat_fails reader_A).1 = Err (ErrStat wtmp1)
  ∧ fileRecords (poll_on fs_stat_fails reader_A).2 !! 12%N = None.
Proof.
  destruct (proj1 (proj2 (C10_early_return_deletes_unobserved_cursors
                            host_Lookup host_Atoi fs_stat_fails reader_A))
              [wtmp; wtmp1] [] wtmp1 [wtmp] (mkFrame reader_A [] [] [])
              eq_refl eq_refl eq_refl eq_refl) as [Herr Hdel].
  split; [exact Herr|]. apply Hdel. apply not_elem_of_nil.
Defined.

End PollExamples.

(** * The user differ *)

Section Resync.
Import user.

Lemma IsEmpty_true c : IsEmpty c = true ↔ c = ∅.
Proof. unfold IsEmpty. apply bool_decide_eq_true. Qed.

Lemma compareUsers_lastState ms users :
  lastState (compareUsers ms users).2 = lastState ms.
Proof.
  unfold compareUsers.
  destruct (DiffAndUpdateCache (cache ms) users) as [[newInCache missingFromCache] c].
  reflexivity.
Qed.

Lemma saveUsersToDisk_lastState w ms users :
  lastState (saveUsersToDisk w ms users).2 = lastState ms.
Proof. unfold saveUsersToDisk. by destruct (Store_ok w _). Qed.

Lemma reportChanges_lastState w ms users :
  lastState (reportChanges w ms users).2 = lastState ms.
Proof.
  unfold reportChanges.
  pose proof (compareUsers_lastState ms users) as Hc.
  destruct (compareUsers ms users) as [[[added removed] changed] ms1].
  simpl in Hc. destruct (_ || _); simpl; [|done].
  pose proof (saveUsersToDisk_lastState w ms1 users) as Hs.
  destruct (saveUsersToDisk w ms1 users) as [err ms2]. simpl in *. congruence.
Qed.

Lemma reportState_lastState w ms users :
  lastState (reportState w ms users).2 = clock_now w.
Proof.
  unfold reportState. destruct (Store_ok w bucketKeyStateTimestamp); [|done].
  cbv zeta.
  match goal with |- context [saveUsersToDisk w ?m users] =>
    pose proof (saveUsersToDisk_lastState w m users) as Hs;
    destruct (saveUsersToDisk w m users) as [err ms2] end.
  simpl in *. exact Hs.
Qed.

(** The events [reportState] hands over: one existing_user state event per
    account, all with the same id. *)
Lemma reportState_events w ms users :
  (reportState w ms users).1.1
  = map (λ user, REvent (mkEvent eventTypeState eventActionUserExists
                                 (Some (uuid_NewV4 w)) (toMapStr user))) users.
Proof.
  unfold reportState. destruct (Store_ok w bucketKeyStateTimestamp); [|done].
  cbv zeta. destruct (saveUsersToDisk w _ users) as [err ms2]. reflexivity.
Qed.

(** C2, as amended: the state resync fires on a poll if and only if the
    diff cache is empty or the time elapsed since the last resync is
    strictly greater than the state period. When it fires, the poll first
    reports one existing_user event per account and the time of the last
    resync becomes the current time; when it does not, in particular when
    the cache is not empty and the elapsed time equals the state period, the
    poll only reports changes and the time of the last resync stays. *)
Theorem C2_resync_iff_cache_empty_or_period_exceeded :
  ∀ w ms,
    (needsState w ms = true
     ↔ cache ms = ∅ ∨ period ms < Since (clock_since w) (lastState ms))
    ∧ (∀ users,
         GetUsers w = Some users →
         needsState w ms = true →
         (∃ rest,
            (Fetch w ms).1
            = map (λ user, REvent (mkEvent eventTypeState eventActionUserExists
                                           (Some (uuid_NewV4 w)) (toMapStr user)))
                  users ++ rest)
         ∧ lastState (Fetch w ms).2 = clock_now w)
    ∧ (∀ users,
         GetUsers w = Some users →
         needsState w ms = false →
         (Fetch w ms).1
         = (reportChanges w ms users).1.1 ++ reportError (reportChanges w ms users).1.2
         ∧ lastState (Fetch w ms).2 = lastState ms)
    ∧ (cache ms ≠ ∅ →
       Since (clock_since w) (lastState ms) = period ms →
       needsState w ms = false).
Proof.
  intros w ms.
  assert (Hiff : needsState w ms = true
                 ↔ cache ms = ∅ ∨ period ms < Since (clock_since w) (lastState ms)).
  { unfold needsState. cbv zeta.
    rewrite orb_true_iff, IsEmpty_true, Z.ltb_lt. tauto. }
  split; [exact Hiff|]. split; [|split].
  - intros users Hg Hn. unfold Fetch. rewrite Hg, Hn.
    pose proof (reportState_events w ms users) as He.
    pose proof (reportState_lastState w ms users) as Hl.
    destruct (reportState w ms users) as [[events err] ms1]. simpl in He, Hl.
    pose proof (reportChanges_lastState w ms1 users) as Hl2.
    destruct (reportChanges w ms1 users) as [[events2 err2] ms2]. simpl in *.
    split; [|congruence].
    exists (reportError err ++ events2 ++ reportError err2).
    rewrite He, <- app_assoc. done.
  - intros users Hg Hn. unfold Fetch. rewrite Hg, Hn.
    pose proof (reportChanges_lastState w ms users) as Hl2.
    destruct (reportChanges w ms users) as [[events2 err2] ms2]. simpl in *.
    done.
  - intros Hc He. apply not_true_is_false. rewrite Hiff. intros [H|H]; [done|lia].
Qed.

End Resync.

Section ResyncExamples.
Import user user_examples.

(** C2, counterexample: the cache holds alice, the last resync was at [t0],
    the state period is 12 hours and the poll runs exactly 12 hours after
    [t0]: the elapsed time equals the period, and no resync fires (nothing
    at all is reported, alice being unchanged). *)
Lemma C2_counterexample :
  let ms := metricset [alice_bash] in
  let w := world (t0 + 12 * hour) [alice_bash] in
  Since (clock_since w) (lastState ms) = period ms
  ∧ needsState w ms = false
  ∧ (Fetch w ms).1 = []
  ∧ lastState (Fetch w ms).2 = t0.
Proof. repeat split; vm_compute; reflexivity. Qed.

(** One nanosecond later the resync fires. *)
Lemma C2_witness :
  needsState (world (t0 + 12 * hour + 1) [alice_bash]) (metricset [alice_bash]) = true.
Proof.
  apply (proj1 (C2_resync_iff_cache_empty_or_period_exceeded
                  (world (t0 + 12 * hour + 1) [alice_bash]) (metricset [alice_bash]))).
  right. vm_compute. reflexivity.
Defined.

End ResyncExamples.

(** * The diff cache and the fingerprint *)

Section Fingerprint.
Import user.

Lemma cache_fold_lookup_None (items : list User) (m : gmap Z User) h :
  foldl (λ m u, <[Hash u := u]> m) m items !! h = None
  ↔ m !! h = None ∧ h ∉ Hash <$> items.
Proof.
  revert m. induction items as [|u items IH]; intros m; cbn [foldl].
  - split; [intros H; split; [done|apply not_elem_of_nil]|by intros [H _]].
  - rewrite IH, fmap_cons, not_elem_of_cons.
    destruct (decide (Hash u = h)) as [<-|Hne].
    + rewrite lookup_insert_eq. split; [by intros [? _]|by intros [_ [? _]]].
    + rewrite lookup_insert_ne by done. split.
      * intros [? ?]. repeat split; [done|congruence|done].
      * intros [? [_ ?]]. done.
Qed.

Lemma cacheOf_lookup_None items h :
  cacheOf items !! h = None ↔ h ∉ Hash <$> items.
Proof.
  unfold cacheOf. rewrite cache_fold_lookup_None, lookup_empty. tauto.
Qed.

Lemma cache_fold_lookup_Some (items : list User) (m : gmap Z User) h u :
  foldl (λ m u, <[Hash u := u]> m) m items !! h = Some u →
  (u ∈ items ∧ Hash u = h) ∨ m !! h = Some u.
Proof.
  revert m. induction items as [|v items IH]; intros m; simpl; [by right|].
  intros [[Hin Hh]|Hl]%IH.
  - left. split; [by right|done].
  - destruct (decide (Hash v = h)) as [<-|Hne].
    + rewrite lookup_insert_eq in Hl. injection Hl as ->. left. split; [by left|done].
    + rewrite lookup_insert_ne in Hl by done. by right.
Qed.

Lemma cacheOf_lookup_Some items h u :
  cacheOf items !! h = Some u → u ∈ items ∧ Hash u = h.
Proof.
  intros [H|H]%cache_fold_lookup_Some; [done|]. by rewrite lookup_empty in H.
Qed.

(** The diff is empty when the new items have the fingerprints of the
    cached ones. *)
Lemma DiffAndUpdateCache_same_fingerprints old new :
  Hash <$> old = Hash <$> new →
  DiffAndUpdateCache (cacheOf old) new = ([], [], cacheOf new).
Proof.
  intros Hh. unfold DiffAndUpdateCache. f_equal. f_equal.
  - induction new as [|u new' IH] in old, Hh |- *; [done|].
    assert (Hall : ∀ v, v ∈ u :: new' → cacheOf old !! Hash v ≠ None).
    { intros v Hv. rewrite cacheOf_lookup_None, Hh. intros Hn. apply Hn.
      apply list_elem_of_fmap. eauto. }
    clear Hh IH. induction (u :: new') as [|v l IHl]; [done|].
    rewrite filter_cons_False by (apply Hall; by left).
    apply IHl. intros x Hx. apply Hall. by right.
  - assert (Hempty : filter (λ kv : Z * User, cacheOf new !! kv.1 = None) (cacheOf old)
                     = ∅).
    { apply map_eq. intros h. rewrite lookup_empty.
      apply map_lookup_filter_None.
      destruct (cacheOf old !! h) as [u|] eqn:Hl; [right|by left].
      intros u' [= <-]. simpl. rewrite cacheOf_lookup_None, <- Hh.
      intros Hn. apply Hn. apply cacheOf_lookup_Some in Hl as [Hin <-].
      apply list_elem_of_fmap. eauto. }
    rewrite Hempty, map_to_list_empty. done.
Qed.

Lemma Hash_sameButUserInfo u v : sameButUserInfo u v → Hash u = Hash v.
Proof.
  intros (Hn & Hp & Hu & Hg & Hd & Hs). unfold Hash.
  by rewrite Hn, Hp, Hu, Hg, Hd, Hs.
Qed.

Lemma Hash_Forall2_sameButUserInfo old new :
  Forall2 sameButUserInfo old new → Hash <$> old = Hash <$> new.
Proof.
  induction 1 as [|u v old new Huv _ IH]; [done|].
  rewrite !fmap_cons, IH, (Hash_sameButUserInfo u v Huv). done.
Qed.

Lemma reportChanges_same_fingerprints w ms old new :
  cache ms = cacheOf old →
  Hash <$> old = Hash <$> new →
  reportChanges w ms new = ([], None, set_cache (cacheOf new) ms).
Proof.
  intros Hc Hh. unfold reportChanges, compareUsers.
  rewrite Hc, (DiffAndUpdateCache_same_fingerprints old new Hh). reflexivity.
Qed.

Lemma reportState_cache w ms users :
  cache (reportState w ms users).2 = cacheOf users.
Proof.
  unfold reportState. destruct (Store_ok w bucketKeyStateTimestamp); [|done].
  cbv zeta. unfold saveUsersToDisk. by destruct (Store_ok w bucketKeyUsers).
Qed.

(** C9: two accounts that differ in the comment text only have the same
    fingerprint; hence, when the accounts enumerated differ from the cached
    snapshot in comment texts only, [compareUsers] classifies nothing,
    [reportChanges] reports no event and no error, and the whole poll
    reports nothing but the state events of a resync, if one is due. *)
Theorem C9_comment_change_is_invisible :
  (∀ u v,
     Name u = Name v → Passwd u = Passwd v → UID u = UID v → GID u = GID v →
     Dir u = Dir v → Shell u = Shell v →
     Hash u = Hash v)
  ∧ (∀ w ms old new,
       cache ms = cacheOf old →
       Forall2 sameButUserInfo old new →
       (compareUsers ms new).1 = ([], [], [])
       ∧ reportChanges w ms new = ([], None, set_cache (cacheOf new) ms)
       ∧ (GetUsers w = Some new →
          (Fetch w ms).1
          = if needsState w ms
            then (reportState w ms new).1.1 ++ reportError (reportState w ms new).1.2
            else [])).
Proof.
  split.
  - intros u v Hn Hp Hu Hg Hd Hs. apply Hash_sameButUserInfo. by repeat split.
  - intros w ms old new Hc Hsame.
    pose proof (Hash_Forall2_sameButUserInfo old new Hsame) as Hh.
    split; [|split].
    + unfold compareUsers.
      rewrite Hc, (DiffAndUpdateCache_same_fingerprints old new Hh). done.
    + by apply (reportChanges_same_fingerprints w ms old new).
    + intros Hg. unfold Fetch. rewrite Hg. destruct (needsState w ms).
      * pose proof (reportState_cache w ms new) as Hc1.
        destruct (reportState w ms new) as [[events err] ms1]. simpl in *.
        rewrite (reportChanges_same_fingerprints w ms1 new new Hc1 eq_refl).
        simpl. by rewrite app_nil_r.
      * rewrite (reportChanges_same_fingerprints w ms old new Hc Hh). done.
Qed.

End Fingerprint.

Section FingerprintExamples.
Import user user_examples.

Lemma C9_witness :
  Hash alice_bash = Hash alice_renamed
  ∧ (Fetch (world (t0 + hour) [alice_renamed; bob]) (metricset [alice_bash; bob])).1 = [].
Proof.
  split.
  - apply (proj1 C9_comment_change_is_invisible alice_bash alice_renamed);
      reflexivity.
  - apply (proj2 C9_comment_change_is_invisible
             (world (t0 + hour) [alice_renamed; bob]) (metricset [alice_bash; bob])
             [alice_bash; bob] [alice_renamed; bob] eq_refl).
    + repeat constructor.
    + reflexivity.
Defined.

End FingerprintExamples.

(** * Classifying the differences *)

Section Classification.
Import user.

Lemma indexByUID_fold_keys (l : list User) (m : gmap Z User) :
  (∀ k v, m !! k = Some v → UID v = k) →
  ∀ k v, foldl (λ m u, <[UID u := u]> m) m l !! k = Some v → UID v = k.
Proof.
  revert m. induction l as [|u l IH]; intros m Hm; cbn [foldl]; [done|].
  apply IH. intros k v. destruct (decide (UID u = k)) as [<-|Hne].
  - rewrite lookup_insert_eq. by intros [= <-].
  - rewrite lookup_insert_ne by done. apply Hm.
Qed.

(** Every entry of the index is filed under its own uid. *)
Lemma indexByUID_keys missingFromCache k v :
  indexByUID missingFromCache !! k = Some v → UID v = k.
Proof.
  apply indexByUID_fold_keys. intros k' v'. by rewrite lookup_empty.
Qed.

(** What the pairing loop returns: the new accounts split into added and
    changed ones, and an index that has lost the uid of every new
    account. *)
Lemma pairUp_inv newInCache (m : gmap Z User) added changed added' changed' m' :
  pairUp newInCache m added changed = (added', changed', m') →
  (∀ k v, m !! k = Some v → UID v = k) →
  ∃ a1 c1,
    added' = added ++ a1 ∧ changed' = changed ++ c1
    ∧ a1 ++ c1 ≡ₚ newInCache
    ∧ m' ⊆ m
    ∧ ∀ x, x ∈ newInCache → m' !! UID x = None.
Proof.
  revert m added changed.
  induction newInCache as [|n l IH]; intros m added changed; cbn [pairUp].
  - intros [= <- <- <-] _. exists [], []. rewrite !app_nil_r.
    repeat split; try done. intros x Hx. by apply elem_of_nil in Hx.
  - destruct (m !! UID n) as [v|] eqn:Hl; intros Hp Hkeys.
    + pose proof (Hkeys _ _ Hl) as Hv.
      destruct (IH _ _ _ Hp) as (a1 & c1 & -> & -> & Hperm & Hsub & Hnone).
      { intros k x [_ Hx]%lookup_delete_Some. by apply Hkeys. }
      exists a1, (n :: c1). repeat split.
      * by rewrite <- app_assoc.
      * by rewrite <- Permutation_middle, Hperm.
      * etrans; [exact Hsub|apply delete_subseteq].
      * intros x [->|Hx]%elem_of_cons; [|by apply Hnone].
        eapply lookup_weaken_None; [|exact Hsub].
        rewrite Hv. apply lookup_delete_eq.
    + destruct (IH _ _ _ Hp Hkeys) as (a1 & c1 & -> & -> & Hperm & Hsub & Hnone).
      exists (n :: a1), c1. repeat split.
      * by rewrite <- app_assoc.
      * simpl. by rewrite Hperm.
      * done.
      * intros x [->|Hx]%elem_of_cons; [|by apply Hnone].
        by eapply lookup_weaken_None.
Qed.

Lemma classify_one_side_empty (newInCache missingFromCache : list user.User) :
  (0 <? Z.of_nat (length newInCache)) && (0 <? Z.of_nat (length missingFromCache))
  = false →
  newInCache = [] ∨ missingFromCache = [].
Proof.
  destruct newInCache, missingFromCache; auto. intros H. discriminate H.
Qed.

Lemma classify_disjoint newInCache missingFromCache added removed changed :
  classify newInCache missingFromCache = (added, removed, changed) →
  disjointByUID removed added
  ∧ disjointByUID removed changed
  ∧ (NoDup (UID <$> newInCache) → disjointByUID added changed).
Proof.
  unfold classify. destruct (_ && _) eqn:Hboth.
  - destruct (pairUp _ _ _ _) as [[added' changed'] m'] eqn:Hp.
    intros [= <- <- <-].
    destruct (pairUp_inv _ _ _ _ _ _ _ Hp (indexByUID_keys missingFromCache))
      as (a1 & c1 & -> & -> & Hperm & Hsub & Hnone).
    assert (Hrem : ∀ x, x ∈ (map_to_list m').*2 → m' !! UID x = Some x).
    { intros x ([k x'] & -> & Hkx)%list_elem_of_fmap. simpl.
      apply elem_of_map_to_list in Hkx.
      pose proof (lookup_weaken _ _ _ _ Hkx Hsub) as Hin.
      by rewrite (indexByUID_keys _ _ _ Hin). }
    simpl. repeat split.
    + intros x y Hx Hy Heq. apply Hrem in Hx.
      rewrite Heq, Hnone in Hx; [done|].
      rewrite <- Hperm. apply elem_of_app. by left.
    + intros x y Hx Hy Heq. apply Hrem in Hx.
      rewrite Heq, Hnone in Hx; [done|].
      rewrite <- Hperm. apply elem_of_app. by right.
    + intros Hnd x y Hx Hy Heq.
      rewrite <- Hperm, fmap_app in Hnd.
      apply NoDup_app in Hnd as (_ & Hdisj & _).
      apply (Hdisj (UID x)).
      * apply list_elem_of_fmap. eauto.
      * rewrite Heq. apply list_elem_of_fmap. eauto.
  - intros [= <- <- <-].
    destruct (classify_one_side_empty _ _ Hboth) as [-> | ->]; repeat split;
      unfold disjointByUID; intros;
      match goal with H : _ ∈ [] |- _ => by apply elem_of_nil in H end.
Qed.

(** C4, as amended: of the lists [compareUsers] returns, removed shares no
    uid with added and none with changed, whatever the users are; added and
    changed share no uid when no two of the users enumerated have the same
    uid. *)
Theorem C4_classes_disjoint_by_uid :
  ∀ ms users added removed changed,
    (compareUsers ms users).1 = (added, removed, changed) →
    disjointByUID removed added
    ∧ disjointByUID removed changed
    ∧ (NoDup (UID <$> users) → disjointByUID added changed).
Proof.
  intros ms users added removed changed. unfold compareUsers, DiffAndUpdateCache.
  cbn [fst]. intros Hc.
  destruct (classify_disjoint _ _ _ _ _ Hc) as (H1 & H2 & H3).
  repeat split; [done|done|]. intros Hnd. apply H3.
  eapply sublist_NoDup; [exact Hnd|].
  apply fmap_sublist, sublist_filter.
Qed.

(** ** The classification and the words of the specification *)

Lemma takeByUID_Some uid accounts found remaining :
  takeByUID uid accounts = Some (found, remaining) →
  UID found = uid ∧ accounts ≡ₚ found :: remaining.
Proof.
  revert found remaining.
  induction accounts as [|a l IH]; intros found remaining; simpl; [done|].
  destruct (decide (UID a = uid)) as [Ha|Ha].
  - intros [= <- <-]. done.
  - destruct (takeByUID uid l) as [[f r]|]; [|done].
    intros [= <- <-]. destruct (IH _ _ eq_refl) as [Hf Hp].
    split; [done|]. rewrite Hp. apply perm_swap.
Qed.

Lemma takeByUID_None uid accounts :
  takeByUID uid accounts = None → uid ∉ UID <$> accounts.
Proof.
  induction accounts as [|a l IH]; simpl; [intros _; apply not_elem_of_nil|].
  destruct (decide (UID a = uid)) as [Ha|Ha]; [done|].
  destruct (takeByUID uid l) as [[f r]|]; [done|].
  intros _. rewrite not_elem_of_cons. split; [congruence|by apply IH].
Qed.

Lemma keyed_fst (l : list User) : ((λ a, (UID a, a)) <$> l).*1 = UID <$> l.
Proof. rewrite <- list_fmap_compose. done. Qed.

Lemma keyed_snd (l : list User) : ((λ a, (UID a, a)) <$> l).*2 = l.
Proof. rewrite <- list_fmap_compose. apply list_fmap_id. Qed.

(** When the accounts have distinct uids the index holds them all. *)
Lemma indexByUID_list_to_map missingFromCache :
  NoDup (UID <$> missingFromCache) →
  indexByUID missingFromCache
  = list_to_map ((λ a, (UID a, a)) <$> missingFromCache).
Proof.
  unfold indexByUID.
  induction missingFromCache as [|x l IH] using rev_ind; [done|].
  rewrite fmap_app, NoDup_app. intros (Hnd & Hdisj & _).
  rewrite foldl_snoc, fmap_app, IH by done. simpl.
  rewrite list_to_map_snoc; [done|]. rewrite keyed_fst.
  intros Hin. apply (Hdisj _ Hin). simpl. by left.
Qed.

Lemma pairUp_classifyByWords newInCache missingFromCache added changed :
  NoDup (UID <$> missingFromCache) →
  ∃ m',
    pairUp newInCache (list_to_map ((λ a, (UID a, a)) <$> missingFromCache))
           added changed
    = (added ++ (classifyByWords newInCache missingFromCache).1.1,
       changed ++ (classifyByWords newInCache missingFromCache).2, m')
    ∧ (map_to_list m').*2 ≡ₚ (classifyByWords newInCache missingFromCache).1.2.
Proof.
  revert missingFromCache added changed.
  induction newInCache as [|n rest IH]; intros absent added changed Hnd;
    cbn [pairUp classifyByWords].
  - eexists. split; [by rewrite !app_nil_r|]. simpl.
    rewrite map_to_list_to_map by (by rewrite keyed_fst).
    by rewrite keyed_snd.
  - destruct (takeByUID (UID n) absent) as [[x remaining]|] eqn:Ht.
    + destruct (takeByUID_Some _ _ _ _ Ht) as [Hx Hperm].
      assert (Hnd' : NoDup (UID <$> x :: remaining)) by (by rewrite <- Hperm).
      rewrite fmap_cons in Hnd'. apply NoDup_cons in Hnd' as [Hxn Hndr].
      rewrite (list_to_map_proper _ ((λ a, (UID a, a)) <$> x :: remaining));
        [|by rewrite keyed_fst|by rewrite Hperm].
      rewrite fmap_cons, list_to_map_cons, <- Hx, lookup_insert_eq.
      rewrite delete_insert_eq, delete_id
        by (apply not_elem_of_list_to_map_1; by rewrite keyed_fst).
      destruct (IH remaining added (changed ++ [n]) Hndr) as (m' & Hp & Hm).
      exists m'. rewrite Hp.
      destruct (classifyByWords rest remaining) as [[ad rm] ch]. simpl in *.
      split; [by rewrite <- app_assoc|done].
    + pose proof (takeByUID_None _ _ Ht) as Hn.
      rewrite (not_elem_of_list_to_map_1 _ (UID n)) by (by rewrite keyed_fst).
      destruct (IH absent (added ++ [n]) changed Hnd) as (m' & Hp & Hm).
      exists m'. rewrite Hp.
      destruct (classifyByWords rest absent) as [[ad rm] ch]. simpl in *.
      split; [by rewrite <- app_assoc|done].
Qed.

Lemma filter_none {A} (P : A → Prop) `{!∀ x, Decision (P x)} (l : list A) :
  (∀ x, x ∈ l → ¬ P x) → filter P l = [].
Proof.
  induction l as [|x l IH]; intros Hall; [done|].
  rewrite filter_cons_False by (apply Hall; by left).
  apply IH. intros y Hy. apply Hall. by right.
Qed.

(** The diff of a snapshot in which one account was replaced by another
    with a new fingerprint: that account is newly present, the old one
    newly absent. *)
Lemma DiffAndUpdateCache_one_replaced before old after new :
  Hash new ∉ Hash <$> (before ++ old :: after) →
  Hash old ∉ Hash <$> (before ++ new :: after) →
  DiffAndUpdateCache (cacheOf (before ++ old :: after)) (before ++ new :: after)
  = ([new], [old], cacheOf (before ++ new :: after)).
Proof.
  intros Hnew Hold. unfold DiffAndUpdateCache. f_equal. f_equal.
  - rewrite filter_app, filter_cons_True by (by apply cacheOf_lookup_None).
    rewrite !filter_none; [done| |].
    + intros x Hx. rewrite cacheOf_lookup_None. intros Hn. apply Hn.
      apply list_elem_of_fmap. exists x. split; [done|].
      apply elem_of_app. right. by right.
    + intros x Hx. rewrite cacheOf_lookup_None. intros Hn. apply Hn.
      apply list_elem_of_fmap. exists x. split; [done|].
      apply elem_of_app. by left.
  - assert (Hone :
      filter (λ kv : Z * User, cacheOf (before ++ new :: after) !! kv.1 = None)
             (cacheOf (before ++ old :: after))
      = {[ Hash old := old ]}).
    { assert (Hother : ∀ u, u ∈ before ++ old :: after → u ≠ old →
                Hash u ∈ Hash <$> (before ++ new :: after)).
      { intros u Hu Hne. apply list_elem_of_fmap. exists u. split; [done|].
        apply elem_of_app in Hu as [Hu|Hu]; apply elem_of_app; [by left|right].
        apply elem_of_cons in Hu as [->|Hu]; [done|]. by right. }
      apply map_eq. intros h. destruct (decide (h = Hash old)) as [->|Hne].
      - rewrite lookup_singleton_eq. apply map_lookup_filter_Some.
        split; [|by apply cacheOf_lookup_None].
        destruct (cacheOf (before ++ old :: after) !! Hash old) as [u|] eqn:Hl.
        + apply cacheOf_lookup_Some in Hl as [Hu Hh].
          destruct (decide (u = old)) as [->|Hu']; [done|].
          exfalso. apply Hold. rewrite <- Hh. by apply Hother.
        + exfalso. apply cacheOf_lookup_None in Hl. apply Hl.
          apply list_elem_of_fmap. exists old. split; [done|].
          apply elem_of_app. right. by left.
      - rewrite lookup_singleton_ne by done. apply map_lookup_filter_None.
        destruct (cacheOf (before ++ old :: after) !! h) as [u|] eqn:Hl; [right|by left].
        intros u' [= <-]. simpl. rewrite cacheOf_lookup_None. intros Hn.
        apply cacheOf_lookup_Some in Hl as [Hu Hh]. apply Hn. rewrite <- Hh.
        apply Hother; [done|]. intros ->. done. }
    rewrite Hone, map_to_list_singleton. done.
Qed.

(** Where no two newly-absent accounts have the same uid, and both sides of
    the diff are non-empty, [classify] does what the words say: each
    newly-present account, in order, whose uid matches a newly-absent
    account not consumed yet is changed and consumes it, the other
    newly-present accounts are added and the newly-absent accounts left are
    removed (in some order). In particular, when one account of the snapshot
    is replaced by an account with the same uid and another fingerprint (its
    shell changed, say), the poll classifies that account as changed and
    nothing else, and reports exactly one user_changed event. *)
Lemma classify_follows_words_for_distinct_uids :
  (∀ newInCache missingFromCache,
     newInCache ≠ [] → missingFromCache ≠ [] →
     NoDup (UID <$> missingFromCache) →
     (classify newInCache missingFromCache).1.1
     = (classifyByWords newInCache missingFromCache).1.1
     ∧ (classify newInCache missingFromCache).1.2
       ≡ₚ (classifyByWords newInCache missingFromCache).1.2
     ∧ (classify newInCache missingFromCache).2
       = (classifyByWords newInCache missingFromCache).2)
  ∧ (∀ w ms before old after new,
       cache ms = cacheOf (before ++ old :: after) →
       UID new = UID old →
       Hash new ∉ Hash <$> (before ++ old :: after) →
       Hash old ∉ Hash <$> (before ++ new :: after) →
       (compareUsers ms (before ++ new :: after)).1 = ([], [], [new])
       ∧ (reportChanges w ms (before ++ new :: after)).1.1
         = [REvent (userEvent new eventTypeEvent eventActionUserChanged)]).
Proof.
  split.
  - intros newInCache missingFromCache Hn Hm Hnd. unfold classify.
    destruct newInCache as [|n l]; [done|].
    destruct missingFromCache as [|x k]; [done|].
    replace ((0 <? Z.of_nat (length (n :: l))) && (0 <? Z.of_nat (length (x :: k))))
      with true by (symmetry; apply andb_true_iff; split; apply Z.ltb_lt; simpl; lia).
    rewrite (indexByUID_list_to_map _ Hnd).
    destruct (pairUp_classifyByWords (n :: l) (x :: k) [] [] Hnd) as (m' & Hp & Hperm).
    rewrite Hp. simpl. done.
  - intros w ms before old after new Hc Hu Hnew Hold.
    assert (Hcl : classify [new] [old] = ([], [], [new])).
    { unfold classify, indexByUID. simpl. rewrite Hu, lookup_insert_eq.
      rewrite delete_insert_eq, delete_empty, map_to_list_empty. done. }
    unfold reportChanges, compareUsers.
    rewrite Hc, (DiffAndUpdateCache_one_replaced _ _ _ _ Hnew Hold), Hcl.
    split; [done|]. simpl.
    by destruct (saveUsersToDisk w _ _).
Qed.

(** ** Newly-absent accounts that share a uid *)

(** The pairing loop takes one entry out of the index for every account it
    files as changed. *)
Lemma pairUp_count newInCache (m : gmap Z User) added changed added' changed' m' :
  pairUp newInCache m added changed = (added', changed', m') →
  (∀ k v, m !! k = Some v → UID v = k) →
  (length changed' + size m' = length changed + size m)%nat.
Proof.
  revert m added changed.
  induction newInCache as [|n l IH]; intros m added changed; cbn [pairUp].
  - by intros [= <- <- <-] _.
  - destruct (m !! UID n) as [v|] eqn:Hl; intros Hp Hkeys.
    + pose proof (Hkeys _ _ Hl) as Hv.
      rewrite (IH _ _ _ Hp).
      2:{ intros k x [_ Hx]%lookup_delete_Some. by apply Hkeys. }
      rewrite length_app, Hv. cbn [length].
      pose proof (map_size_delete_Some (UID n) m (mk_is_Some _ _ Hl)) as Hd.
      pose proof (map_size_ne_0_lookup_2 m (UID n) (mk_is_Some _ _ Hl)). lia.
    + by apply (IH _ _ _ Hp).
Qed.

Lemma indexByUID_snoc l x :
  indexByUID (l ++ [x]) = <[UID x := x]> (indexByUID l).
Proof. unfold indexByUID. by rewrite foldl_snoc. Qed.

Lemma indexByUID_is_Some l uid :
  uid ∈ UID <$> l → is_Some (indexByUID l !! uid).
Proof.
  induction l as [|x l IH] using rev_ind; [by intros ?%elem_of_nil|].
  rewrite fmap_app, elem_of_app, indexByUID_snoc. intros Hin.
  destruct (decide (UID x = uid)) as [<-|Hne].
  - rewrite lookup_insert_eq. by eexists.
  - rewrite lookup_insert_ne by done. destruct Hin as [Hin|Hin]; [by apply IH|].
    apply list_elem_of_singleton in Hin. done.
Qed.

(** The index by uid holds one account per uid: fewer accounts than the
    list when two of the list share a uid. *)
Lemma indexByUID_size l :
  (size (indexByUID l) ≤ length l)%nat
  ∧ (¬ NoDup (UID <$> l) → (size (indexByUID l) < length l)%nat).
Proof.
  induction l as [|x l [IHle IHlt]] using rev_ind.
  - split; [done|]. intros Hn. destruct Hn. constructor.
  - rewrite indexByUID_snoc, length_app, map_size_insert. cbn [length].
    destruct (decide (UID x ∈ UID <$> l)) as [Hin|Hnin].
    + destruct (indexByUID_is_Some l _ Hin) as [v ->]. simpl. split; lia.
    + split; [destruct (indexByUID l !! UID x); simpl; lia|].
      intros Hdup.
      assert (Hl : ¬ NoDup (UID <$> l)).
      { intros Hnd. apply Hdup. rewrite fmap_app. apply NoDup_app.
        split; [done|]. split; [|apply NoDup_singleton].
        intros y Hy Hx. apply list_elem_of_singleton in Hx. by subst y. }
      specialize (IHlt Hl). destruct (indexByUID l !! UID x); simpl; lia.
Qed.

(** In the words of the specification every newly absent account is either
    consumed by a changed account or removed. *)
Lemma classifyByWords_count newly_present newly_absent :
  (length (classifyByWords newly_present newly_absent).1.2
   + length (classifyByWords newly_present newly_absent).2
   = length newly_absent)%nat.
Proof.
  revert newly_absent.
  induction newly_present as [|account rest IH]; intros newly_absent;
    cbn [classifyByWords]; [simpl; lia|].
  destruct (takeByUID (UID account) newly_absent) as [[found remaining]|] eqn:Ht.
  - apply takeByUID_Some in Ht as [_ Hperm].
    specialize (IH remaining).
    destruct (classifyByWords rest remaining) as [[added removed] changed].
    rewrite Hperm. simpl in *. lia.
  - specialize (IH newly_absent).
    destruct (classifyByWords rest newly_absent) as [[added removed] changed].
    simpl in *. lia.
Qed.

(** C5: when something is newly present and two of the newly absent
    accounts have the same uid, [compareUsers] loses an account: the index
    by uid holds one of the two, so the accounts classified as removed and
    those consumed by a changed account are fewer than the newly absent
    ones, and the removal of at least one account is reported on no poll.
    In the words of the claim every newly absent account is consumed or
    removed. *)
Theorem C5_absent_accounts_sharing_uid_drop_a_removal :
  ∀ newInCache missingFromCache,
    newInCache ≠ [] →
    ¬ NoDup (UID <$> missingFromCache) →
    (length (classify newInCache missingFromCache).1.2
     + length (classify newInCache missingFromCache).2
     < length missingFromCache)%nat
    ∧ (length (classifyByWords newInCache missingFromCache).1.2
       + length (classifyByWords newInCache missingFromCache).2
       = length missingFromCache)%nat.
Proof.
  intros newInCache missingFromCache Hn Hdup.
  split; [|apply classifyByWords_count].
  unfold classify.
  destruct newInCache as [|n l]; [done|].
  destruct missingFromCache as [|x k]; [destruct Hdup; constructor|].
  replace ((0 <? Z.of_nat (length (n :: l))) && (0 <? Z.of_nat (length (x :: k))))
    with true by (symmetry; apply andb_true_iff; split; apply Z.ltb_lt; simpl; lia).
  destruct (pairUp _ _ _ _) as [[added' changed'] m'] eqn:Hp.
  pose proof (pairUp_count _ _ _ _ _ _ _ Hp (indexByUID_keys (x :: k))) as Hc.
  pose proof (proj2 (indexByUID_size (x :: k)) Hdup) as Hlt.
  cbn [fst snd]. rewrite length_fmap, length_map_to_list.
  simpl in Hc. lia.
Qed.

End Classification.

Section ClassificationExamples.
Import user user_examples.

(** C4, counterexample: the snapshot holds root (uid 0); the poll
    enumerates root with another shell and a second account toor with
    uid 0. The first is classified as changed, the second as added: uid 0
    occurs in both lists. *)
Lemma C4_counterexample :
  (compareUsers (metricset [root_sh]) [root_bash; toor_bash]).1
  = ([toor_bash], [], [root_bash])
  ∧ ¬ disjointByUID [toor_bash] [root_bash].
Proof.
  split; [vm_compute; reflexivity|].
  intros H. apply (H toor_bash root_bash); [by left|by left|reflexivity].
Qed.

Lemma C4_witness :
  disjointByUID [] [bob]
  ∧ disjointByUID [] [alice_zsh]
  ∧ disjointByUID [bob] [alice_zsh].
Proof.
  assert (Hc : (compareUsers (metricset [alice_bash]) [alice_zsh; bob]).1
               = ([bob], [], [alice_zsh])) by (vm_compute; reflexivity).
  destruct (C4_classes_disjoint_by_uid _ _ _ _ _ Hc) as (H1 & H2 & H3).
  repeat split; [exact H1|exact H2|]. apply H3.
  apply (bool_decide_unpack _). vm_compute. exact I.
Defined.

(** The snapshot holds root and toor, both with uid 0, and both change
    their shell. Both newly-present accounts have a uid that matches a
    newly-absent account, and by the words of the specification both are
    changed; the code classifies the first as changed and the second as
    added, the index by uid holding one of the two absent accounts. *)
Lemma shared_uid_second_change_is_added :
  (DiffAndUpdateCache (cacheOf [root_sh; toor_sh]) [root_bash; toor_bash]).1.1
  = [root_bash; toor_bash]
  ∧ (DiffAndUpdateCache (cacheOf [root_sh; toor_sh]) [root_bash; toor_bash]).1.2
    ≡ₚ [root_sh; toor_sh]
  ∧ (compareUsers (metricset [root_sh; toor_sh]) [root_bash; toor_bash]).1
    = ([toor_bash], [], [root_bash])
  ∧ classifyByWords [root_bash; toor_bash] [root_sh; toor_sh]
    = ([], [], [root_bash; toor_bash])
  ∧ classifyByWords [root_bash; toor_bash] [toor_sh; root_sh]
    = ([], [], [root_bash; toor_bash]).
Proof.
  repeat split; try (vm_compute; reflexivity).
  apply (bool_decide_unpack _). vm_compute. exact I.
Qed.

(** The third scenario of the specification: alice's shell changes from
    bash to zsh; bob is unchanged. *)
Lemma shell_change_is_one_user_changed :
  (compareUsers (metricset [alice_bash; bob]) [alice_zsh; bob]).1
  = ([], [], [alice_zsh])
  ∧ (reportChanges (world (t0 + hour) [alice_zsh; bob])
                   (metricset [alice_bash; bob]) [alice_zsh; bob]).1.1
    = [REvent (userEvent alice_zsh eventTypeEvent eventActionUserChanged)].
Proof.
  apply (proj2 classify_follows_words_for_distinct_uids
           (world (t0 + hour) [alice_zsh; bob]) (metricset [alice_bash; bob])
           [] alice_bash [bob] alice_zsh eq_refl eq_refl);
    apply (bool_decide_unpack _); vm_compute; exact I.
Qed.

(** C5 at the failing input: the snapshot holds root and toor, both with
    uid 0; the poll enumerates carol alone. By the claim carol is added and
    root and toor are removed. The code reports carol added and root
    removed: toor, which the index by uid lost to root, is reported on no
    poll. Had nothing been newly present, both would have been reported
    removed. *)
Lemma C5_witness :
  (compareUsers (metricset [root_sh; toor_sh]) [carol]).1 = ([carol], [root_sh], [])
  ∧ (Fetch (world (t0 + hour) [carol]) (metricset [root_sh; toor_sh])).1
    = [REvent (userEvent carol eventTypeEvent eventActionUserAdded);
       REvent (userEvent root_sh eventTypeEvent eventActionUserRemoved)]
  ∧ (compareUsers (metricset [root_sh; toor_sh]) []).1 = ([], [toor_sh; root_sh], [])
  ∧ (length (classify [carol] [toor_sh; root_sh]).1.2
     + length (classify [carol] [toor_sh; root_sh]).2
     < length [toor_sh; root_sh])%nat.
Proof.
  split; [vm_compute; reflexivity|]. split; [vm_compute; reflexivity|].
  split; [vm_compute; reflexivity|].
  apply (proj1 (C5_absent_accounts_sharing_uid_drop_a_removal
                  [carol] [toor_sh; root_sh] ltac:(discriminate)
                  ltac:(intros Hnd; apply NoDup_cons in Hnd as [Hnin _];
                        apply Hnin; by left))).
Defined.

End ClassificationExamples.

(** * The library functions, on known values *)

Section LibraryChecks.

(** The XXH64 digests of the reference implementation (seed 0). *)
Example xxhash_reference_digests :
  xxhash.Sum64String "" = 0xEF46DB3751D8E999
  ∧ xxhash.Sum64String "a" = 0xD24EC4F1A98C6E5B
  ∧ xxhash.Sum64String "abc" = 0x44BC2CF5AD770999
  ∧ xxhash.Sum64String "xxhash" = 0x32DD38952C4BC720
  ∧ xxhash.Sum64String "Nobody inspects the spammish repetition"
    = 0xFBCEA83C8A378BF1.
Proof. repeat split; vm_compute; reflexivity. Qed.

Example Itoa_values :
  user.Itoa 0 = "0" ∧ user.Itoa 1000 = "1000" ∧ user.Itoa 4294967295 = "4294967295".
Proof. repeat split; vm_compute; reflexivity. Qed.

(** [newIP] on the IPv4 address 127.0.0.1 and on an IPv6 address. *)
Example newIP_values :
  login.newIP (16777343, 0, 0, 0) = Some [127; 0; 0; 1]
  ∧ login.newIP (0x0120, 0, 0, 0x01000000)
    = Some [32; 1; 0; 0; 0; 0; 0; 0; 0; 0; 0; 0; 0; 0; 0; 1].
Proof. repeat split; vm_compute; reflexivity. Qed.

(** Paths are visited in reverse lexical order, rotated files first. *)
Example sortReverse_values :
  login.sortReverse ["/var/log/wtmp"; "/var/log/wtmp.2"; "/var/log/wtmp.1"]
  = ["/var/log/wtmp.2"; "/var/log/wtmp.1"; "/var/log/wtmp"].
Proof. vm_compute. reflexivity. Qed.

End LibraryChecks.

(** * More on the session folding *)

Section SessionFoldingMore.
Import login.

Variable user_Lookup : string → option string.
Variable strconv_Atoi : string → option Z.

Abbreviation process := (processLoginRecord user_Lookup strconv_Atoi).
Abbreviation process_legacy := (legacy.processLoginRecord user_Lookup strconv_Atoi).
Abbreviation loginOf := (loginRecordOf user_Lookup strconv_Atoi).

(** A run-level record yields a shutdown event and empties the
    open-session table when its user is "shutdown" or its pid, taken as a
    rune, is the character '0' or '6'; any other run-level record yields no
    event and leaves the reader as it is. *)
Theorem run_level_shutdown_or_dropped r utmp :
  UtType utmp = RUN_LVL →
  (UtUser utmp = "shutdown" ∨ rune (UtPid utmp) = 48 ∨ rune (UtPid utmp) = 54 →
     process r utmp
     = (Some (set_RecType shutdownRecord (initRecord utmp)), set_loginSessions ∅ r))
  ∧ (¬ (UtUser utmp = "shutdown" ∨ rune (UtPid utmp) = 48 ∨ rune (UtPid utmp) = 54) →
     process r utmp = (None, r)).
Proof.
  intros Ht. unfold processLoginRecord. rewrite Ht. simpl. split.
  - intros Hh.
    replace (bool_decide (UtUser utmp = "shutdown") || (rune (UtPid utmp) =? 48)
             || (rune (UtPid utmp) =? 54)) with true; [done|].
    symmetry. rewrite !orb_true_iff, bool_decide_eq_true, !Z.eqb_eq. tauto.
  - intros Hn.
    replace (bool_decide (UtUser utmp = "shutdown") || (rune (UtPid utmp) =? 48)
             || (rune (UtPid utmp) =? 54)) with false; [done|].
    symmetry. apply not_true_iff_false.
    rewrite !orb_true_iff, bool_decide_eq_true, !Z.eqb_eq. tauto.
Qed.

(** Every record [processLoginRecord] returns carries the raw record and
    its timestamp, has the terminal line as its TTY ("~" becoming the empty
    string) and an empty origin, and its kind is fixed by the record type:
    run-level gives shutdown, boot-time boot, user-process user_login,
    dead-process user_logout. No other kind and no other record type is
    ever returned. *)
Theorem returned_record_shape r utmp rec :
  (process r utmp).1 = Some rec →
  RawUtmp rec = utmp
  ∧ Timestamp rec = UtTv utmp
  ∧ Origin rec = ""
  ∧ TTY rec = (if decide (UtLine utmp = "~") then "" else UtLine utmp)
  ∧ ((UtType utmp = RUN_LVL ∧ RecType rec = shutdownRecord)
     ∨ (UtType utmp = BOOT_TIME ∧ RecType rec = bootRecord)
     ∨ (UtType utmp = USER_PROCESS ∧ RecType rec = userLoginRecord)
     ∨ (UtType utmp = DEAD_PROCESS ∧ RecType rec = userLogoutRecord)).
Proof.
  assert (Hinit : ∀ t, TTY (initRecord t)
                       = if decide (UtLine t = "~") then "" else UtLine t).
  { intros t. unfold initRecord.
    destruct (decide (UtLine t ≠ "~")), (decide (UtLine t = "~")); done. }
  assert (Hraw : ∀ t, RawUtmp (initRecord t) = t ∧ Timestamp (initRecord t) = UtTv t
                      ∧ Origin (initRecord t) = "").
  { intros t. unfold initRecord. by destruct (decide (UtLine t ≠ "~")). }
  destruct (Hraw utmp) as (H1 & H2 & H3). specialize (Hinit utmp).
  unfold processLoginRecord.
  destruct (UtType utmp =? RUN_LVL) eqn:E1.
  { apply Z.eqb_eq in E1. destruct (_ || _); [|done]. simpl. intros [= <-].
    simpl. repeat split; auto. }
  destruct (UtType utmp =? BOOT_TIME) eqn:E2.
  { apply Z.eqb_eq in E2. destruct (_ && _); [|done]. simpl. intros [= <-].
    simpl. repeat split; auto. }
  destruct (UtType utmp =? USER_PROCESS) eqn:E3.
  { apply Z.eqb_eq in E3. simpl. intros [= <-]. simpl. repeat split; auto 6. }
  destruct (UtType utmp =? DEAD_PROCESS) eqn:E4; [|done].
  apply Z.eqb_eq in E4. destruct (loginSessions r !! _); [|done].
  simpl. intros [= <-]. simpl. repeat split; auto 6.
Qed.

(** A user-process record yields a user_login event with the user name,
    pid, host name and address of the record and the uid the host gives for
    the name; the event is stored in the open-session table under its TTY,
    replacing what was stored there; the other terminal lines and the
    cursors are untouched. *)
Theorem user_process_opens_session r utmp :
  UtType utmp = USER_PROCESS →
  ∃ rec,
    (process r utmp).1 = Some rec
    ∧ RecType rec = userLoginRecord
    ∧ Username rec = UtUser utmp
    ∧ UID rec = lookupUsername user_Lookup strconv_Atoi (UtUser utmp)
    ∧ PID rec = UtPid utmp
    ∧ Hostname rec = UtHost utmp
    ∧ IP rec = newIP (UtAddrV6 utmp)
    ∧ loginSessions (process r utmp).2 !! TTY rec = Some rec
    ∧ (∀ t, t ≠ TTY rec →
         loginSessions (process r utmp).2 !! t = loginSessions r !! t)
    ∧ fileRecords (process r utmp).2 = fileRecords r.
Proof.
  intros Ht. exists (loginOf utmp).
  unfold processLoginRecord. rewrite Ht. simpl.
  repeat split.
  - apply lookup_insert_eq.
  - intros t Hne. by apply lookup_insert_ne.
Qed.

(** Folding a record keeps every open session filed under its own TTY. *)
Theorem sessions_stay_keyed r utmp :
  sessionsKeyed (loginSessions r) →
  sessionsKeyed (loginSessions (process r utmp).2).
Proof.
  intros Hk. unfold processLoginRecord.
  destruct (UtType utmp =? RUN_LVL).
  { destruct (_ || _); simpl; [|done]. intros t l. by rewrite lookup_empty. }
  destruct (UtType utmp =? BOOT_TIME).
  { destruct (_ && _); simpl; [|done]. intros t l. by rewrite lookup_empty. }
  destruct (UtType utmp =? USER_PROCESS).
  { simpl. intros t l. destruct (decide (TTY (loginOf utmp) = t)) as [<-|Hne].
    - rewrite lookup_insert_eq. by intros [= <-].
    - rewrite lookup_insert_ne by done. apply Hk. }
  destruct (UtType utmp =? DEAD_PROCESS); [|done].
  by destruct (loginSessions r !! _).
Qed.

(** A record that yields no event changes nothing, and no record ever
    changes the cursors: the open-session table is the only state the
    folding writes. *)
Theorem dropped_record_changes_nothing r utmp :
  ((processLoginRecord user_Lookup strconv_Atoi r utmp).1 = None →
   (processLoginRecord user_Lookup strconv_Atoi r utmp).2 = r)
  ∧ fileRecords (processLoginRecord user_Lookup strconv_Atoi r utmp).2
    = fileRecords r.
Proof.
  unfold processLoginRecord.
  repeat (match goal with
          | |- context [if ?b then _ else _] => destruct b
          | |- context [match ?o with Some _ => _ | None => _ end] => destruct o
          end; simpl; try done).
Qed.

(** The two revisions of [processLoginRecord] agree on every record but a
    boot-time record that is not the reboot record. *)
Theorem revisions_agree_but_on_boot_time r utmp :
  (UtType utmp = BOOT_TIME → UtLine utmp = "~" ∧ UtUser utmp = "reboot") →
  process_legacy r utmp = process r utmp.
Proof.
  intros Hb. unfold legacy.processLoginRecord, processLoginRecord.
  destruct (UtType utmp =? RUN_LVL); [done|].
  destruct (UtType utmp =? BOOT_TIME) eqn:E; [|done].
  apply Z.eqb_eq in E. destruct (Hb E) as [Hl Hu].
  by rewrite !bool_decide_eq_true_2.
Qed.

End SessionFoldingMore.

Section AddressDecoding.
Import login.

Lemma byte_testbit v k n :
  0 ≤ k → 0 ≤ n →
  Z.testbit (Z.shiftl (Z.land (Z.shiftr v k) (Z.ones 8)) k) n
  = (k <=? n) && (n <? k + 8) && Z.testbit v n.
Proof.
  intros Hk Hn. destruct (Z.lt_ge_cases n k) as [Hlt|Hge].
  - rewrite Z.shiftl_spec_low by lia.
    replace (k <=? n) with false by (symmetry; apply Z.leb_gt; lia). done.
  - rewrite Z.shiftl_spec_high, Z.land_spec, Z.shiftr_spec by lia.
    rewrite Z.testbit_ones_nonneg by lia.
    replace (n - k + k) with n by lia.
    replace (k <=? n) with true by (symmetry; apply Z.leb_le; lia).
    replace (n - k <? 8) with (n <? k + 8)
      by (destruct (Z.ltb_spec n (k + 8)), (Z.ltb_spec (n - k) 8); lia || done).
    simpl. apply andb_comm.
Qed.

Lemma Uint32_PutUint32 v : 0 ≤ v < 2 ^ 32 → Uint32 (PutUint32 v) = v.
Proof.
  intros Hv. unfold Uint32, PutUint32.
  change 255 with (Z.ones 8).
  rewrite <- (Z.shiftl_0_r (Z.land v (Z.ones 8))).
  rewrite <- (Z.shiftr_0_r v) at 1.
  apply Z.bits_inj'. intros n Hn.
  rewrite !Z.lor_spec, !byte_testbit by lia.
  assert (Hhigh : 32 ≤ n → Z.testbit v n = false).
  { intros Hge. rewrite <- (Z.mod_small v (2 ^ 32)) by lia.
    apply Z.mod_pow2_bits_high. lia. }
  destruct (Z.lt_ge_cases n 32) as [H32|H32]; [|rewrite (Hhigh H32)].
  - destruct (Z.leb_spec 0 n), (Z.ltb_spec n (0 + 8)), (Z.leb_spec 8 n),
      (Z.ltb_spec n (8 + 8)), (Z.leb_spec 16 n), (Z.ltb_spec n (16 + 8)),
      (Z.leb_spec 24 n), (Z.ltb_spec n (24 + 8));
      try lia; simpl; by rewrite ?orb_false_r.
  - by rewrite !andb_false_r.
Qed.

Lemma PutUint32_bytes v : Forall (λ b, 0 ≤ b < 256) (PutUint32 v).
Proof.
  unfold PutUint32. change 255 with (Z.ones 8).
  repeat constructor; rewrite Z.land_ones by lia; apply Z.mod_pos_bound; lia.
Qed.

(** [newIP] never returns nil. When the last three words of the address are
    zero it returns the 4 bytes of an IPv4 address, otherwise the 16 bytes
    of an IPv6 address; every byte is in 0..255 and, the words being
    32-bit, reading the bytes back little-endian gives the words. *)
Theorem newIP_little_endian_bytes a0 a1 a2 a3 :
  0 ≤ a0 < 2 ^ 32 → 0 ≤ a1 < 2 ^ 32 → 0 ≤ a2 < 2 ^ 32 → 0 ≤ a3 < 2 ^ 32 →
  ∃ ip,
    newIP (a0, a1, a2, a3) = Some ip
    ∧ Forall (λ b, 0 ≤ b < 256) ip
    ∧ Uint32 ip = a0
    ∧ (a1 = 0 ∧ a2 = 0 ∧ a3 = 0 → length ip = 4%nat)
    ∧ (¬ (a1 = 0 ∧ a2 = 0 ∧ a3 = 0) →
       length ip = 16%nat
       ∧ Uint32 (drop 4 ip) = a1
       ∧ Uint32 (drop 8 ip) = a2
       ∧ Uint32 (drop 12 ip) = a3).
Proof.
  intros H0 H1 H2 H3. unfold newIP.
  destruct (negb (a1 =? 0) || negb (a2 =? 0) || negb (a3 =? 0)) eqn:E.
  - eexists. split; [reflexivity|].
    assert (Hn : ¬ (a1 = 0 ∧ a2 = 0 ∧ a3 = 0)).
    { intros (-> & -> & ->). discriminate E. }
    split; [|split; [|split]].
    + repeat (apply Forall_app; split); apply PutUint32_bytes.
    + apply (Uint32_PutUint32 a0 H0).
    + intros Hz. by destruct Hn.
    + intros _. split; [reflexivity|]. split; [|split].
      * apply (Uint32_PutUint32 a1 H1).
      * apply (Uint32_PutUint32 a2 H2).
      * apply (Uint32_PutUint32 a3 H3).
  - eexists. split; [reflexivity|].
    rewrite !orb_false_iff, !negb_false_iff, !Z.eqb_eq in E.
    split; [|split; [|split]].
    + apply PutUint32_bytes.
    + apply (Uint32_PutUint32 a0 H0).
    + intros _. reflexivity.
    + intros Hn. destruct Hn. tauto.
Qed.

End AddressDecoding.

Section SessionFoldingMoreExamples.
Import login examples.

Abbreviation process_on_host := (processLoginRecord host_Lookup host_Atoi).

(** The record init writes when the host goes from run level 5 to run
    level 0 has the pid '5' * 256 + '0' and the user "runlevel": its rune is
    not '0', and the record is dropped. *)
Lemma run_level_shutdown_or_dropped_witness :
  process_on_host reader0 utmp_runlevel_5_to_0 = (None, reader0).
Proof.
  apply (run_level_shutdown_or_dropped host_Lookup host_Atoi reader0
           utmp_runlevel_5_to_0 eq_refl).
  intros [H|[H|H]]; discriminate H.
Defined.

Lemma returned_record_shape_witness :
  TTY (set_RecType bootRecord (initRecord utmp_boot)) = ""
  ∧ RawUtmp (set_RecType bootRecord (initRecord utmp_boot)) = utmp_boot.
Proof.
  destruct (returned_record_shape host_Lookup host_Atoi reader0 utmp_boot
              (set_RecType bootRecord (initRecord utmp_boot)) eq_refl)
    as (Hraw & _ & _ & Htty & _).
  split; [exact Htty|exact Hraw].
Defined.

Lemma user_process_opens_session_witness :
  ∃ rec,
    (process_on_host reader0 utmp_login_remote).1 = Some rec
    ∧ Username rec = "bob"
    ∧ UID rec = -1
    ∧ IP rec = Some [192; 0; 2; 7]
    ∧ loginSessions (process_on_host reader0 utmp_login_remote).2 !! "pts/3"
      = Some rec.
Proof.
  destruct (user_process_opens_session host_Lookup host_Atoi reader0
              utmp_login_remote eq_refl)
    as (rec & Hr & _ & Hu & Hid & _ & _ & Hip & Hl & _).
  exists rec. repeat split; assumption.
Defined.

Lemma sessions_stay_keyed_witness :
  sessionsKeyed (loginSessions (process_on_host reader0 utmp_login).2).
Proof.
  apply (sessions_stay_keyed host_Lookup host_Atoi reader0 utmp_login).
  intros t l Hl. unfold reader0 in Hl. cbn [loginSessions] in Hl.
  rewrite lookup_empty in Hl. discriminate Hl.
Defined.

Lemma revisions_agree_but_on_boot_time_witness :
  legacy.processLoginRecord host_Lookup host_Atoi reader0 utmp_boot
  = process_on_host reader0 utmp_boot.
Proof.
  apply (revisions_agree_but_on_boot_time host_Lookup host_Atoi reader0 utmp_boot).
  intros _. split; reflexivity.
Defined.

Lemma newIP_little_endian_bytes_witness :
  ∃ ip, newIP (117571776, 0, 0, 0) = Some ip ∧ length ip = 4%nat
        ∧ Uint32 ip = 117571776.
Proof.
  destruct (newIP_little_endian_bytes 117571776 0 0 0) as (ip & Hip & _ & Hu & H4 & _);
    try lia.
  exists ip. repeat split; [exact Hip|by apply H4|exact Hu].
Defined.

End SessionFoldingMoreExamples.

(** * More on reading *)

Section ReadingMore.
Import login.

(** [readAfter] returns an error and no record when the stream ends in a
    read error, whatever was decoded before and whatever the last known
    record is; with a nil last known record and a stream that ends at the
    end of the file it returns every record of the file, in order; with a
    last known record, it returns an error when the file cannot be
    rewound. *)
Theorem readAfter_errors_and_nil f :
  (stream_end f = ReadFails → ∀ last, readAfter f last = Err ErrReadEntry)
  ∧ (stream_end f = AtEOF → readAfter f None = Ok (records f))
  ∧ (stream_end f = AtEOF → seek_ok f = false →
     ∀ last, readAfter f (Some last) = Err ErrSeek).
Proof.
  split; [|split].
  - intros He last. unfold readAfter. destruct (readPass _ _ _ _). by rewrite He.
  - intros He. by apply readAfter_nil.
  - intros He Hs last. unfold readAfter.
    rewrite bool_decide_eq_false_2 by done.
    rewrite readPass_not_reached, He.
    rewrite (bool_decide_eq_true_2 (Some last ≠ None)) by done.
    simpl. by rewrite Hs.
Qed.

End ReadingMore.

Section ReadingMoreExamples.
Import login examples.

Lemma readAfter_errors_and_nil_witness :
  readAfter file_AB_truncated (Some utmp_A) = Err ErrReadEntry
  ∧ readAfter file_ABC None = Ok [utmp_A; utmp_B; utmp_C]
  ∧ readAfter file_A_no_seek (Some utmp_A) = Err ErrSeek.
Proof.
  split; [|split].
  - apply (proj1 (readAfter_errors_and_nil file_AB_truncated) eq_refl).
  - apply (proj1 (proj2 (readAfter_errors_and_nil file_ABC)) eq_refl).
  - apply (proj2 (proj2 (readAfter_errors_and_nil file_A_no_seek)) eq_refl eq_refl).
Defined.

Lemma legacy_readAfter_resumes_witness :
  legacy.readAfter file_ABC (Some utmp_B) = Ok [utmp_C]
  ∧ legacy.readAfter file_ZA (Some Utmp_zero) = Ok [utmp_zero_bytes; utmp_A].
Proof.
  split.
  - apply (proj1 (legacy_readAfter_resumes file_ABC utmp_B eq_refl
                    ltac:(repeat constructor; discriminate)) [utmp_A] [utmp_C]).
    + reflexivity.
    + intros Hin. apply list_elem_of_singleton in Hin. discriminate Hin.
  - apply (proj2 (proj2 (legacy_readAfter_resumes file_ZA utmp_A eq_refl
                           ltac:(repeat constructor; discriminate)))).
Defined.

End ReadingMoreExamples.

(** * More on one poll *)

Section PollMore.
Import login.

Variable user_Lookup : string → option string.
Variable strconv_Atoi : string → option Z.
Variable fs : FileSystem.

Abbreviation process := (processLoginRecord user_Lookup strconv_Atoi).
Abbreviation loop := (pollLoop user_Lookup strconv_Atoi fs).
Abbreviation body := (pollBody user_Lookup strconv_Atoi fs).
Abbreviation poll := (ReadNew user_Lookup strconv_Atoi fs).
Abbreviation inodeOf := (statInode fs).
Abbreviation sortedPaths := (default [] (sortReverse <$> Glob fs)).

Lemma processAll_preserves (P : UtmpFileReader → list LoginRecord → Prop) path :
  (∀ r l utmp,
     P r l →
     P (process r utmp).2
       (l ++ match (process r utmp).1 with
             | Some rec => [set_Origin path rec]
             | None => []
             end)) →
  ∀ utmpRecords r l,
    P r l →
    P (processAll user_Lookup strconv_Atoi path utmpRecords r l).1
      (processAll user_Lookup strconv_Atoi path utmpRecords r l).2.
Proof.
  intros Hstep utmpRecords.
  induction utmpRecords as [|utmp rest IH]; intros r l HP; simpl; [done|].
  specialize (Hstep r l utmp HP).
  destruct (process r utmp) as [[rec|] r1]; simpl in *.
  - by apply IH.
  - rewrite app_nil_r in Hstep. by apply IH.
Qed.

(** A property of the reader and of the records collected so far that the
    folding of a record and the registration of an empty new file keep is
    kept by the loop. *)
Lemma pollLoop_preserves (P : UtmpFileReader → list LoginRecord → Prop)
    (all : list string) :
  (∀ r l inode sz, P r l → P (updateFileRecord r inode sz None) l) →
  (∀ r l path utmp,
     path ∈ all → P r l →
     P (process r utmp).2
       (l ++ match (process r utmp).1 with
             | Some rec => [set_Origin path rec]
             | None => []
             end)) →
  ∀ paths fr fr' err,
    (∀ p, p ∈ paths → p ∈ all) →
    loop paths fr = (fr', err) →
    P (reader fr) (loginRecords fr) →
    P (reader fr') (loginRecords fr').
Proof.
  intros Hupd Hproc paths.
  induction paths as [|path paths IH]; intros fr fr' err Hsub.
  - simpl. by intros [= <- <-].
  - assert (Hsub' : ∀ p, p ∈ paths → p ∈ all) by (intros p Hp; apply Hsub; by right).
    rewrite pollLoop_cons.
    destruct (Stat fs path) as [inode newSize| |]; [|by apply IH|by intros [= <- <-]].
    cbv zeta. destruct (negb _ && _).
    { intros Hl HP. apply (IH _ _ _ Hsub' Hl). cbn [reader loginRecords].
      by apply Hupd. }
    destruct (negb _ || _); [|intros Hl HP; by apply (IH _ _ _ Hsub' Hl)].
    destruct (readFile _ _ _ _) as [utmpRecords|e]; [|by intros [= <- <-]].
    intros Hl HP. apply (IH _ _ _ Hsub' Hl). cbn [reader loginRecords].
    apply processAll_preserves; [|done].
    intros r l utmp. apply Hproc. apply Hsub. by left.
Qed.

Lemma updateFileRecord_keyed r inode size utmpRecords :
  cursorsKeyed (fileRecords r) →
  cursorsKeyed (fileRecords (updateFileRecord r inode size utmpRecords)).
Proof.
  intros Hk i c. destruct (decide (i = inode)) as [->|Hne].
  - rewrite updateFileRecord_lookup. by intros [= <-].
  - rewrite updateFileRecord_lookup_ne by done. apply Hk.
Qed.

Lemma updateFileRecord_loginSessions r inode size utmpRecords :
  loginSessions (updateFileRecord r inode size utmpRecords) = loginSessions r.
Proof. reflexivity. Qed.

Lemma process_sessions_keyed r utmp :
  sessionsKeyed (loginSessions r) →
  sessionsKeyed (loginSessions (process r utmp).2).
Proof.
  intros Hk. unfold processLoginRecord.
  destruct (UtType utmp =? RUN_LVL).
  { destruct (_ || _); simpl; [|done]. intros t l. by rewrite lookup_empty. }
  destruct (UtType utmp =? BOOT_TIME).
  { destruct (_ && _); simpl; [|done]. intros t l. by rewrite lookup_empty. }
  destruct (UtType utmp =? USER_PROCESS).
  { simpl. intros t l.
    destruct (decide (TTY (loginRecordOf user_Lookup strconv_Atoi utmp) = t))
      as [<-|Hne].
    - rewrite lookup_insert_eq. by intros [= <-].
    - rewrite lookup_insert_ne by done. apply Hk. }
  destruct (UtType utmp =? DEAD_PROCESS); [|done].
  by destruct (loginSessions r !! _).
Qed.

Lemma process_kind_known r utmp rec :
  (process r utmp).1 = Some rec → RecType rec ≠ unknownRecord.
Proof.
  unfold processLoginRecord.
  destruct (UtType utmp =? RUN_LVL).
  { destruct (_ || _); [|done]. by intros [= <-]. }
  destruct (UtType utmp =? BOOT_TIME).
  { destruct (_ && _); [|done]. by intros [= <-]. }
  destruct (UtType utmp =? USER_PROCESS); [by intros [= <-]|].
  destruct (UtType utmp =? DEAD_PROCESS); [|done].
  destruct (loginSessions r !! _); [|done]. by intros [= <-].
Qed.

Lemma runDeferred_keyed ds r :
  cursorsKeyed (fileRecords r) → cursorsKeyed (fileRecords (runDeferred ds r)).
Proof.
  unfold runDeferred. generalize (reverse ds). clear ds. intros ds. revert r.
  induction ds as [|d ds IH]; intros r Hk; cbn [foldl]; [done|].
  apply IH. by apply updateFileRecord_keyed.
Qed.

Lemma runDeferred_loginSessions ds r :
  loginSessions (runDeferred ds r) = loginSessions r.
Proof.
  unfold runDeferred. generalize (reverse ds). clear ds. intros ds. revert r.
  induction ds as [|d ds IH]; intros r; cbn [foldl]; [done|]. by rewrite IH.
Qed.

Lemma ReadNew_loginSessions r :
  loginSessions (poll r).2 = loginSessions (reader (body r).1).
Proof.
  unfold ReadNew. destruct (body r) as [fr [e|]]; simpl;
    by rewrite runDeferred_loginSessions.
Qed.

Lemma body_loop r paths :
  Glob fs = Some paths → body r = loop (sortReverse paths) (mkFrame r [] [] []).
Proof. intros Hg. unfold pollBody. by rewrite Hg. Qed.

Lemma body_no_paths r :
  Glob fs = None → body r = (mkFrame r [] [] [], Some ErrGlob).
Proof. intros Hg. unfold pollBody. by rewrite Hg. Qed.

(** A poll keeps the two tables well keyed: if every cursor is filed under
    its own inode and every open session under its own TTY before
    [ReadNew], so they are after it, whether it returns records or an error;
    and every cursor left belongs to an inode that [os.Stat] reported for a
    path of this poll. *)
Theorem poll_keeps_tables_keyed r :
  cursorsKeyed (fileRecords r) →
  sessionsKeyed (loginSessions r) →
  cursorsKeyed (fileRecords (poll r).2)
  ∧ sessionsKeyed (loginSessions (poll r).2)
  ∧ ∀ i, is_Some (fileRecords (poll r).2 !! i) → i ∈ omap inodeOf sortedPaths.
Proof.
  intros Hc Hs.
  assert (Hbody : cursorsKeyed (fileRecords (reader (body r).1))
                  ∧ sessionsKeyed (loginSessions (reader (body r).1))).
  { destruct (Glob fs) as [paths|] eqn:Hg; [|by rewrite (body_no_paths r Hg)].
    rewrite (body_loop r paths Hg).
    destruct (loop _ _) as [fr' err] eqn:Hl.
    apply (pollLoop_preserves
             (λ r _, cursorsKeyed (fileRecords r) ∧ sessionsKeyed (loginSessions r))
             (sortReverse paths)) with (paths := sortReverse paths)
             (fr := mkFrame r [] [] []) (err := err).
    - intros r0 l inode sz [H1 H2]. split; [by apply updateFileRecord_keyed|done].
    - intros r0 l path utmp _ [H1 H2]. split.
      + by rewrite process_fileRecords.
      + by apply process_sessions_keyed.
    - intros p Hp. exact Hp.
    - exact Hl.
    - by split. }
  destruct Hbody as [Hbc Hbs]. split; [|split].
  - intros i c. rewrite ReadNew_lookup. destruct (decide _); [|done].
    by apply runDeferred_keyed.
  - by rewrite ReadNew_loginSessions.
  - intros i [c Hi]. rewrite ReadNew_lookup in Hi.
    destruct (decide (i ∈ inodes (body r).1)) as [Hin|]; [|done].
    clear Hi. destruct (Glob fs) as [paths|] eqn:Hg.
    + rewrite (body_loop r paths Hg) in Hin.
      destruct (loop _ _) as [fr' err] eqn:Hl.
      destruct (pollLoop_frame _ _ _ _ _ _ _ Hl) as ((pre & post & Hpp & Hi' & _) & _).
      cbn [fst inodes] in *. simpl in Hi'. rewrite Hi' in Hin.
      simpl. rewrite Hpp, omap_app. apply elem_of_app. by left.
    + rewrite (body_no_paths r Hg) in Hin. by apply elem_of_nil in Hin.
Qed.

(** Every login record a poll returns has as its origin one of the paths the
    pattern expanded to, and its kind is never unknown. *)
Theorem returned_records_have_origin r recs :
  (ReadNew user_Lookup strconv_Atoi fs r).1 = Ok recs →
  ∀ rec, rec ∈ recs →
         Origin rec ∈ default [] (Glob fs) ∧ RecType rec ≠ unknownRecord.
Proof.
  rewrite ReadNew_result.
  destruct (Glob fs) as [paths|] eqn:Hg; [|by rewrite (body_no_paths r Hg)].
  rewrite (body_loop r paths Hg).
  destruct (loop _ _) as [fr' err] eqn:Hl. cbn [fst snd].
  destruct err as [e|]; [done|]. intros [= <-].
  assert (HP : ∀ rec, rec ∈ loginRecords fr' →
                 Origin rec ∈ sortReverse paths ∧ RecType rec ≠ unknownRecord).
  { apply (pollLoop_preserves
             (λ _ l, ∀ rec, rec ∈ l →
                       Origin rec ∈ sortReverse paths ∧ RecType rec ≠ unknownRecord)
             (sortReverse paths)) with (paths := sortReverse paths)
             (fr := mkFrame r [] [] []) (err := None).
    - intros r0 l inode sz H. exact H.
    - intros r0 l path utmp Hpath Hall rec [Hin|Hin]%elem_of_app; [by apply Hall|].
      destruct (process r0 utmp) as [[rec0|] r1] eqn:Hp; simpl in Hin.
      + apply list_elem_of_singleton in Hin as ->. split; [done|].
        simpl. eapply (process_kind_known r0 utmp). by rewrite Hp.
      + by apply elem_of_nil in Hin.
    - intros p Hp. exact Hp.
    - exact Hl.
    - intros rec Hin. by apply elem_of_nil in Hin. }
  intros rec Hin. destruct (HP rec Hin) as [Ho Hk]. split; [|done].
  simpl. unfold sortReverse in Ho. by rewrite merge_sort_Permutation in Ho.
Qed.

Lemma pollLoop_unchanged paths fr :
  (∀ p, p ∈ paths →
        Stat fs p = StatNotExist
        ∨ ∃ i c, Stat fs p = StatOk i (Size c)
                 ∧ fileRecords (reader fr) !! i = Some c) →
  loop paths fr
  = (mkFrame (reader fr) (inodes fr ++ omap inodeOf paths) (deferred fr)
             (loginRecords fr), None).
Proof.
  revert fr. induction paths as [|path paths IH]; intros fr Hall.
  - simpl. rewrite app_nil_r. by destruct fr.
  - rewrite pollLoop_cons.
    assert (Hrest : ∀ p, p ∈ paths →
              Stat fs p = StatNotExist
              ∨ ∃ i c, Stat fs p = StatOk i (Size c)
                       ∧ fileRecords (reader fr) !! i = Some c)
      by (intros p Hp; apply Hall; by right).
    destruct (Hall path) as [Hst|(i & c & Hst & Hc)]; [by left| |].
    + assert (Hi : inodeOf path = None) by (unfold statInode; by rewrite Hst).
      rewrite Hst, (IH _ Hrest). simpl. by rewrite Hi.
    + assert (Hi : inodeOf path = Some i) by (unfold statInode; by rewrite Hst).
      rewrite Hst. cbv zeta. rewrite Hc.
      assert (Hknown : isKnownFile (Some c) (Size c) = true).
      { unfold isKnownFile, oldSizeOf. simpl. by rewrite Z.ltb_irrefl. }
      rewrite Hknown. change (oldSizeOf (Some c)) with (Size c).
      rewrite Z.eqb_refl. cbn [negb andb orb].
      rewrite (IH (mkFrame (reader fr) (inodes fr ++ [i]) (deferred fr)
                           (loginRecords fr)) Hrest).
      cbn [reader inodes deferred loginRecords].
      rewrite <- app_assoc. simpl. by rewrite Hi.
Qed.

(** A poll that finds nothing new changes nothing: when every path of the
    pattern either no longer exists or has an inode whose cursor records
    exactly the size the file has now, and every cursor belongs to one of
    these inodes, [ReadNew] returns no record and no error and leaves the
    reader as it was. No file is opened. *)
Theorem poll_without_changes_is_idle r paths :
  Glob fs = Some paths →
  (∀ p, p ∈ paths →
        Stat fs p = StatNotExist
        ∨ ∃ i c, Stat fs p = StatOk i (Size c) ∧ fileRecords r !! i = Some c) →
  (∀ i, is_Some (fileRecords r !! i) → i ∈ omap (statInode fs) paths) →
  ReadNew user_Lookup strconv_Atoi fs r = (Ok [], r).
Proof.
  intros Hg Hall Hcov. unfold ReadNew, pollBody. rewrite Hg.
  rewrite pollLoop_unchanged.
  2:{ intros p Hp. apply Hall. unfold sortReverse in Hp.
      by rewrite merge_sort_Permutation in Hp. }
  cbn [deferred reader inodes loginRecords]. f_equal.
  unfold runDeferred, deleteOldRecords. simpl. destruct r as [frs ls].
  unfold set_fileRecords. cbn [fileRecords loginSessions] in *. f_equal.
  apply map_filter_id. intros i c Hi. simpl. apply bool_decide_eq_true_2.
  unfold sortReverse. rewrite merge_sort_Permutation. apply Hcov. eauto.
Qed.

(** A known file that was truncated to nothing is not read: when the poll
    comes to a path of size 0 whose inode has a cursor of positive size, it
    sets the size of the cursor to 0, keeps the last record of the cursor and
    goes on; if no other path of the poll has this inode, this is the cursor
    the poll leaves. *)
Theorem known_file_truncated_to_zero :
  ∀ r paths pre path post frp inode c,
    Glob fs = Some paths →
    sortReverse paths = pre ++ path :: post →
    loop pre (mkFrame r [] [] []) = (frp, None) →
    Stat fs path = StatOk inode 0 →
    fileRecords r !! inode = Some c →
    0 < Size c →
    inode ∉ omap inodeOf (pre ++ post) →
    loop (path :: post) frp
    = loop post
        (mkFrame (updateFileRecord (reader frp) inode 0 None)
                 (inodes frp ++ [inode]) (deferred frp) (loginRecords frp))
    ∧ fileRecords (poll r).2 !! inode = Some (mkFileRecord inode 0 (LastUtmp c)).
Proof.
  intros r paths pre path post frp inode c Hg Hs Hpre Hst Hc Hpos Hn.
  rewrite omap_app, not_elem_of_app in Hn. destruct Hn as [Hnpre Hnpost].
  destruct (pollLoop_frame _ _ _ _ _ _ _ Hpre)
    as (_ & (ds0 & Hd0 & Hin0 & _) & Hf0 & _).
  cbn [deferred reader inodes] in Hd0, Hf0.
  assert (Hfrp : fileRecords (reader frp) !! inode = Some c)
    by (rewrite Hf0 by done; done).
  assert (Hstep : loop (path :: post) frp
    = loop post
        (mkFrame (updateFileRecord (reader frp) inode 0 None)
                 (inodes frp ++ [inode]) (deferred frp) (loginRecords frp))).
  { rewrite pollLoop_cons, Hst. cbv zeta. rewrite Hfrp.
    assert (Hk : isKnownFile (Some c) 0 = false).
    { unfold isKnownFile. change (oldSizeOf (Some c)) with (Size c).
      by replace (0 <? Size c) with true by (symmetry; by apply Z.ltb_lt). }
    rewrite Hk. reflexivity. }
  split; [exact Hstep|].
  rewrite ReadNew_lookup. unfold pollBody. rewrite Hg, Hs.
  rewrite (pollLoop_app _ _ _ _ _ _ _ Hpre), Hstep.
  destruct (loop post _) as [fr' err] eqn:Hl.
  destruct (pollLoop_frame _ _ _ _ _ _ _ Hl)
    as ((p1 & p2 & _ & Hi & _) & (ds & Hd & Hin & _) & Hf & _).
  cbn [deferred reader inodes fst] in *.
  rewrite decide_True by (rewrite Hi; set_solver).
  rewrite runDeferred_other.
  - rewrite Hf by done. rewrite updateFileRecord_lookup, Hfrp. done.
  - rewrite Hd, Hd0, fmap_app, not_elem_of_app. simpl.
    split; intros (d & -> & Hdin)%list_elem_of_fmap; [apply Hnpre|apply Hnpost]; auto.
Qed.

End PollMore.

Section PollMoreExamples.
Import login examples.

Abbreviation poll_on_host := (ReadNew host_Lookup host_Atoi).

Lemma cursorsKeyed_reader_A : cursorsKeyed (fileRecords reader_A).
Proof.
  intros i c. unfold reader_A. cbn [fileRecords].
  intros [-> <-]%lookup_singleton_Some. reflexivity.
Defined.

Lemma sessionsKeyed_empty : sessionsKeyed (loginSessions reader_A).
Proof.
  intros t l Hl. unfold reader_A in Hl. cbn [loginSessions] in Hl.
  rewrite lookup_empty in Hl. discriminate Hl.
Defined.

Lemma poll_keeps_tables_keyed_witness :
  cursorsKeyed (fileRecords (poll_on_host fs_wtmp_ABC reader_A).2)
  ∧ sessionsKeyed (loginSessions (poll_on_host fs_wtmp_ABC reader_A).2).
Proof.
  destruct (poll_keeps_tables_keyed host_Lookup host_Atoi fs_wtmp_ABC reader_A
              cursorsKeyed_reader_A sessionsKeyed_empty) as (H1 & H2 & _).
  split; [exact H1|exact H2].
Defined.

Lemma returned_records_have_origin_witness :
  (poll_on_host fs_wtmp_ABC reader_A).1
  = Ok [set_Origin wtmp (loginRecordOf host_Lookup host_Atoi utmp_A);
        set_Origin wtmp
          (logoutRecordOf (loginRecordOf host_Lookup host_Atoi utmp_A) utmp_B);
        set_Origin wtmp (loginRecordOf host_Lookup host_Atoi utmp_C)]
  ∧ Origin (set_Origin wtmp (loginRecordOf host_Lookup host_Atoi utmp_C)) ∈ [wtmp]
  ∧ RecType (set_Origin wtmp (loginRecordOf host_Lookup host_Atoi utmp_C))
    ≠ unknownRecord.
Proof.
  assert (Hp : (poll_on_host fs_wtmp_ABC reader_A).1
               = Ok [set_Origin wtmp (loginRecordOf host_Lookup host_Atoi utmp_A);
                     set_Origin wtmp
                       (logoutRecordOf (loginRecordOf host_Lookup host_Atoi utmp_A)
                                       utmp_B);
                     set_Origin wtmp (loginRecordOf host_Lookup host_Atoi utmp_C)])
    by (vm_compute; reflexivity).
  split; [exact Hp|].
  apply (returned_records_have_origin host_Lookup host_Atoi fs_wtmp_ABC reader_A
           _ Hp).
  right. right. left.
Defined.

Lemma poll_without_changes_is_idle_witness :
  poll_on_host fs_wtmp_unchanged reader_A = (Ok [], reader_A).
Proof.
  apply (poll_without_changes_is_idle host_Lookup host_Atoi fs_wtmp_unchanged
           reader_A [wtmp] eq_refl).
  - intros p ->%list_elem_of_singleton. right.
    exists 12%N, (mkFileRecord 12%N 384 utmp_A). split; reflexivity.
  - intros i [c Hi]. unfold reader_A in Hi. cbn [fileRecords] in Hi.
    apply lookup_singleton_Some in Hi as [<- _]. by left.
Defined.

Lemma known_file_truncated_to_zero_witness :
  fileRecords (poll_on_host fs_wtmp_truncated_to_zero reader_A).2 !! 12%N
  = Some (mkFileRecord 12%N 0 utmp_A).
Proof.
  apply (known_file_truncated_to_zero host_Lookup host_Atoi
           fs_wtmp_truncated_to_zero reader_A [wtmp] [] wtmp []
           (mkFrame reader_A [] [] []) 12%N (mkFileRecord 12%N 384 utmp_A));
    first [reflexivity | apply not_elem_of_nil].
Defined.

End PollMoreExamples.

Section FoldingStateExamples.
Import login examples.

Lemma dropped_record_changes_nothing_witness :
  (processLoginRecord host_Lookup host_Atoi reader_A utmp_boot_tty).2 = reader_A.
Proof.
  apply (proj1 (dropped_record_changes_nothing host_Lookup host_Atoi reader_A
                  utmp_boot_tty)).
  reflexivity.
Defined.

End FoldingStateExamples.

(** * The state on disk *)

Section KeyedFold.
Context `{Countable K} {A : Type} (key : A → K).

(** Inserting values under distinct keys, one after the other, gives the map
    of the keyed list. *)
Lemma foldl_insert_list_to_map (l : list A) :
  NoDup (key <$> l) →
  foldl (λ (m : gmap K A) a, <[key a := a]> m) ∅ l
  = list_to_map ((λ a, (key a, a)) <$> l).
Proof.
  induction l as [|x l IH] using rev_ind; [done|].
  rewrite fmap_app, NoDup_app. intros (Hnd & Hdisj & _).
  rewrite foldl_snoc, fmap_app, IH by done. simpl.
  rewrite list_to_map_snoc; [done|].
  rewrite <- list_fmap_compose. intros Hin. apply (Hdisj _ Hin). simpl. by left.
Qed.

(** The values of a map whose entries are filed under their own key give
    the map back, in whatever order they come. *)
Lemma foldl_insert_values (m : gmap K A) (l : list A) :
  l ≡ₚ (map_to_list m).*2 →
  (∀ k a, m !! k = Some a → key a = k) →
  foldl (λ (m : gmap K A) a, <[key a := a]> m) ∅ l = m.
Proof.
  intros Hperm Hk.
  assert (Hl : (λ a, (key a, a)) <$> (map_to_list m).*2 = map_to_list m).
  { clear Hperm.
    assert (Hall : ∀ ka, ka ∈ map_to_list m → key ka.2 = ka.1).
    { intros [k a] Hin. apply elem_of_map_to_list in Hin. by apply Hk. }
    induction (map_to_list m) as [|[k a] kvs IH]; [done|].
    rewrite !fmap_cons. cbn [snd].
    rewrite IH by (intros ka Hin; apply Hall; by right).
    pose proof (Hall (k, a) ltac:(by left)) as Hka. cbn [fst snd] in Hka.
    by rewrite Hka. }
  assert (Hkeys : ((λ a, (key a, a)) <$> l).*1 ≡ₚ (map_to_list m).*1)
    by (by rewrite Hperm, Hl).
  assert (Hnd : NoDup ((λ a, (key a, a)) <$> l).*1)
    by (rewrite Hkeys; apply NoDup_fst_map_to_list).
  rewrite foldl_insert_list_to_map.
  - transitivity (list_to_map (map_to_list m) : gmap K A);
      [|apply list_to_map_to_list].
    apply list_to_map_proper; [done|]. by rewrite Hperm, Hl.
  - by rewrite <- list_fmap_compose in Hnd.
Qed.

End KeyedFold.

Section Persistence.
Import login.

Lemma decodeFileRecords_values (l : list FileRecord) m :
  decodeFileRecords (Some <$> l) m
  = Some (foldl (λ m (c : FileRecord), <[FileInode c := c]> m) m l).
Proof. revert m. induction l as [|c l IH]; intros m; simpl; [done|apply IH]. Qed.

Lemma decodeLoginRecords_values (l : list LoginRecord) m :
  decodeLoginRecords (Some <$> l) m
  = Some (foldl (λ m (s : LoginRecord), <[TTY s := s]> m) m l).
Proof. revert m. induction l as [|c l IH]; intros m; simpl; [done|apply IH]. Qed.

Lemma decodeFileRecords_None blob m :
  decodeFileRecords blob m = None ↔ None ∈ blob.
Proof.
  revert m. induction blob as [|[c|] blob IH]; intros m; simpl.
  - split; [done|]. by intros ?%elem_of_nil.
  - rewrite IH. split; [by right|]. by intros [?|?]%elem_of_cons.
  - split; [by left|done].
Qed.

Lemma decodeLoginRecords_None blob m :
  decodeLoginRecords blob m = None ↔ None ∈ blob.
Proof.
  revert m. induction blob as [|[c|] blob IH]; intros m; simpl.
  - split; [done|]. by intros ?%elem_of_nil.
  - rewrite IH. split; [by right|]. by intros [?|?]%elem_of_cons.
  - split; [by left|done].
Qed.

Lemma decodeFileRecords_keyed blob m m' :
  decodeFileRecords blob m = Some m' → cursorsKeyed m → cursorsKeyed m'.
Proof.
  revert m. induction blob as [|[c|] blob IH]; intros m; simpl; [|..|done].
  - by intros [= <-].
  - intros Hd Hk. apply (IH _ Hd). intros i c'.
    destruct (decide (FileInode c = i)) as [<-|Hne].
    + rewrite lookup_insert_eq. by intros [= <-].
    + rewrite lookup_insert_ne by done. apply Hk.
Qed.

Lemma decodeLoginRecords_keyed blob m m' :
  decodeLoginRecords blob m = Some m' → sessionsKeyed m → sessionsKeyed m'.
Proof.
  revert m. induction blob as [|[c|] blob IH]; intros m; simpl; [|..|done].
  - by intros [= <-].
  - intros Hd Hk. apply (IH _ Hd). intros i c'.
    destruct (decide (TTY c = i)) as [<-|Hne].
    + rewrite lookup_insert_eq. by intros [= <-].
    + rewrite lookup_insert_ne by done. apply Hk.
Qed.

(** The state survives a restart: when every cursor is filed under its own
    inode and every open session under its own TTY, and the store works,
    [saveStateToDisk] followed by [NewUtmpFileReader] on the same bucket
    gives the reader back, for every order in which the two [range] loops
    can visit the tables. *)
Theorem state_survives_restart rangeFileRecords rangeLoginSessions r b :
  rangesOver (fileRecords r) (rangeFileRecords (fileRecords r)) →
  rangesOver (loginSessions r) (rangeLoginSessions (loginSessions r)) →
  cursorsKeyed (fileRecords r) →
  sessionsKeyed (loginSessions r) →
  Store_ok b bucketKeyFileRecords = true →
  Store_ok b bucketKeyLoginSessions = true →
  Load_ok b bucketKeyFileRecords = true →
  Load_ok b bucketKeyLoginSessions = true →
  (saveStateToDisk rangeFileRecords rangeLoginSessions r b).1 = None
  ∧ NewUtmpFileReader (saveStateToDisk rangeFileRecords rangeLoginSessions r b).2
    = inr r.
Proof.
  intros Hr1 Hr2 Hc Hs Hs1 Hs2 Hl1 Hl2.
  unfold saveStateToDisk, saveFileRecordsToDisk, saveLoginSessionsToDisk.
  rewrite Hs1. cbn [Store_ok]. rewrite Hs2. split; [done|].
  cbn [snd]. unfold NewUtmpFileReader, restoreStateFromDisk,
    restoreFileRecordsFromDisk, restoreLoginSessionsFromDisk.
  cbn [Load_ok blobFileRecords blobLoginSessions fileRecords loginSessions].
  rewrite Hl1, decodeFileRecords_values, (foldl_insert_values FileInode _ _ Hr1 Hc).
  cbn [Load_ok blobFileRecords blobLoginSessions fileRecords loginSessions
       set_fileRecords].
  rewrite Hl2, decodeLoginRecords_values, (foldl_insert_values TTY _ _ Hr2 Hs).
  by destruct r.
Qed.

(** A reader that [NewUtmpFileReader] returns has every cursor filed under
    its own inode and every open session under its own TTY, whatever the
    blobs hold. *)
Theorem restored_reader_is_keyed b r :
  NewUtmpFileReader b = inr r →
  cursorsKeyed (fileRecords r) ∧ sessionsKeyed (loginSessions r).
Proof.
  unfold NewUtmpFileReader, restoreStateFromDisk, restoreFileRecordsFromDisk,
    restoreLoginSessionsFromDisk.
  destruct (Load_ok b bucketKeyFileRecords); [|done].
  cbn [fileRecords]. destruct (decodeFileRecords _ _) as [m1|] eqn:H1; [|done].
  destruct (Load_ok b bucketKeyLoginSessions); [|done].
  cbn [loginSessions set_fileRecords].
  destruct (decodeLoginRecords _ _) as [m2|] eqn:H2; [|done].
  intros [= <-]. cbn [fileRecords loginSessions set_loginSessions]. split.
  - apply (decodeFileRecords_keyed _ _ _ H1). intros i c. by rewrite lookup_empty.
  - apply (decodeLoginRecords_keyed _ _ _ H2). intros i c. by rewrite lookup_empty.
Qed.

(** [NewUtmpFileReader] returns a reader exactly when both blobs can be
    loaded and every item of both decodes; on a bucket with two blobs of
    length 0, as on the first run, the reader it returns has two empty
    tables. *)
Theorem NewUtmpFileReader_succeeds_iff b :
  ((∃ r, NewUtmpFileReader b = inr r)
   ↔ Load_ok b bucketKeyFileRecords = true
     ∧ Load_ok b bucketKeyLoginSessions = true
     ∧ (None ∉ blobFileRecords b)
     ∧ (None ∉ blobLoginSessions b))
  ∧ (Load_ok b bucketKeyFileRecords = true →
     Load_ok b bucketKeyLoginSessions = true →
     blobFileRecords b = [] → blobLoginSessions b = [] →
     NewUtmpFileReader b = inr (mkReader ∅ ∅)).
Proof.
  unfold NewUtmpFileReader, restoreStateFromDisk, restoreFileRecordsFromDisk,
    restoreLoginSessionsFromDisk. split.
  - destruct (Load_ok b bucketKeyFileRecords).
    2:{ split; [by intros [r Hr]|by intros [? _]]. }
    cbn [fileRecords].
    destruct (decodeFileRecords (blobFileRecords b) ∅) as [m1|] eqn:H1.
    2:{ apply decodeFileRecords_None in H1.
        split; [by intros [r Hr]|by intros (_ & _ & ? & _)]. }
    destruct (Load_ok b bucketKeyLoginSessions).
    2:{ split; [by intros [r Hr]|by intros (_ & ? & _)]. }
    cbn [loginSessions set_fileRecords].
    destruct (decodeLoginRecords (blobLoginSessions b) ∅) as [m2|] eqn:H2.
    2:{ apply decodeLoginRecords_None in H2.
        split; [by intros [r Hr]|by intros (_ & _ & _ & ?)]. }
    split; [|by eauto]. intros _. repeat split.
    + intros Hn. apply decodeFileRecords_None with (m := ∅) in Hn. congruence.
    + intros Hn. apply decodeLoginRecords_None with (m := ∅) in Hn. congruence.
  - intros -> -> -> ->. reflexivity.
Qed.

End Persistence.

Section PersistenceExamples.
Import login examples.

(** Two cursors and one session, written in the reverse of the order of
    [map_to_list]. *)
Lemma state_survives_restart_witness :
  NewUtmpFileReader
    (saveStateToDisk range_backwards range_backwards reader_two bucket_empty).2
  = inr reader_two.
Proof.
  apply (state_survives_restart range_backwards range_backwards reader_two
           bucket_empty); try reflexivity.
  - apply reverse_Permutation.
  - apply reverse_Permutation.
  - intros i c. unfold reader_two. cbn [fileRecords].
    intros [[<- <-]|[_ [<- <-]%lookup_singleton_Some]]%lookup_insert_Some;
      reflexivity.
  - intros t l. unfold reader_two. cbn [loginSessions].
    intros [<- <-]%lookup_singleton_Some. reflexivity.
Defined.

Lemma restored_reader_is_keyed_witness :
  cursorsKeyed {[ 12%N := mkFileRecord 12%N 384 utmp_A ]}.
Proof.
  exact (proj1 (restored_reader_is_keyed
           (mkBucket [Some (mkFileRecord 12%N 384 utmp_A)] [] (λ _, true) (λ _, true))
           (mkReader {[ 12%N := mkFileRecord 12%N 384 utmp_A ]} ∅) eq_refl)).
Defined.

Lemma NewUtmpFileReader_succeeds_iff_witness :
  NewUtmpFileReader bucket_empty = inr (mkReader ∅ ∅)
  ∧ NewUtmpFileReader bucket_damaged = inl ErrDecodeFileRecord.
Proof.
  split; [|reflexivity].
  apply (proj2 (NewUtmpFileReader_succeeds_iff bucket_empty)); reflexivity.
Defined.

End PersistenceExamples.

(** * Polls of the user metricset *)

Section UserPolls.
Import user.

Lemma set_cache_cache ms : set_cache (cache ms) ms = ms.
Proof. by destruct ms. Qed.

Lemma reportChanges_after_snapshot w ms users :
  cache ms = cacheOf users → reportChanges w ms users = ([], None, ms).
Proof.
  intros Hc.
  rewrite (reportChanges_same_fingerprints w ms users users Hc eq_refl), <- Hc.
  by rewrite set_cache_cache.
Qed.

(** What [reportState] does, by the outcome of its two writes. *)
Lemma reportState_unfold w ms users :
  reportState w ms users
  = (map (λ user, REvent (mkEvent eventTypeState eventActionUserExists
                                  (Some (uuid_NewV4 w)) (toMapStr user))) users,
     (if Store_ok w bucketKeyStateTimestamp
      then if Store_ok w bucketKeyUsers then None else Some ErrStoreUsers
      else Some ErrStoreTimestamp),
     mkMetricSet (period ms) (cacheOf users)
       (if Store_ok w bucketKeyStateTimestamp
        then if Store_ok w bucketKeyUsers
             then <[bucketKeyUsers := BlobUsers users]>
                    (<[bucketKeyStateTimestamp := BlobTime (clock_now w)]> (bucket ms))
             else <[bucketKeyStateTimestamp := BlobTime (clock_now w)]> (bucket ms)
        else bucket ms)
       (clock_now w)).
Proof.
  unfold reportState, saveUsersToDisk.
  destruct (Store_ok w bucketKeyStateTimestamp); [|reflexivity].
  cbv zeta. destruct (Store_ok w bucketKeyUsers); reflexivity.
Qed.

Lemma reportChanges_cache w ms users :
  cache (reportChanges w ms users).2 = cacheOf users.
Proof.
  unfold reportChanges, compareUsers, DiffAndUpdateCache.
  destruct (classify _ _) as [[added removed] changed].
  destruct (_ || _); [|reflexivity].
  unfold saveUsersToDisk. by destruct (Store_ok w bucketKeyUsers).
Qed.

Lemma Fetch_resync w ms users :
  GetUsers w = Some users → needsState w ms = true →
  Fetch w ms
  = ((reportState w ms users).1.1 ++ reportError (reportState w ms users).1.2,
     (reportState w ms users).2).
Proof.
  intros Hu Hn. unfold Fetch. rewrite Hu, Hn.
  pose proof (reportState_cache w ms users) as Hc.
  destruct (reportState w ms users) as [[events err] ms1]. cbn [fst snd] in *.
  rewrite (reportChanges_after_snapshot w ms1 users Hc).
  by rewrite !app_nil_r.
Qed.

Lemma Fetch_cache w ms users :
  GetUsers w = Some users → cache (Fetch w ms).2 = cacheOf users.
Proof.
  intros Hu. destruct (needsState w ms) eqn:Hn.
  - rewrite (Fetch_resync w ms users Hu Hn). apply reportState_cache.
  - unfold Fetch. rewrite Hu, Hn.
    pose proof (reportChanges_cache w ms users) as Hc.
    by destruct (reportChanges w ms users) as [[events err] ms1].
Qed.

(** A poll on which the state is due reports the state and nothing else:
    one existing_user event per account enumerated, then the error of the
    first write that failed, if one did; whatever the cache held, no account
    is reported as added, removed or changed. Afterwards the cache holds the
    accounts enumerated and the time of the last state is the time of the
    poll, also when a write failed. *)
Theorem resync_poll_reports_state_only w ms users :
  GetUsers w = Some users → needsState w ms = true →
  (Fetch w ms).1
  = map (λ user, REvent (mkEvent eventTypeState eventActionUserExists
                                 (Some (uuid_NewV4 w)) (toMapStr user))) users
    ++ reportError (if Store_ok w bucketKeyStateTimestamp
                    then if Store_ok w bucketKeyUsers then None else Some ErrStoreUsers
                    else Some ErrStoreTimestamp)
  ∧ cache (Fetch w ms).2 = cacheOf users
  ∧ lastState (Fetch w ms).2 = clock_now w.
Proof.
  intros Hu Hn. rewrite (Fetch_resync w ms users Hu Hn), reportState_unfold.
  done.
Qed.

(** A poll that enumerates the accounts of the poll before it, on which no
    state is due, reports nothing and leaves the metricset as it is, whether
    or not the writes of the poll before succeeded. *)
Theorem repeated_poll_is_quiet w w' ms users :
  GetUsers w = Some users → GetUsers w' = Some users →
  needsState w' (Fetch w ms).2 = false →
  Fetch w' (Fetch w ms).2 = ([], (Fetch w ms).2).
Proof.
  intros Hu Hu' Hn. pose proof (Fetch_cache w ms users Hu) as Hc.
  unfold Fetch at 1. rewrite Hu', Hn.
  by rewrite (reportChanges_after_snapshot w' _ users Hc).
Qed.

Lemma classify_nil (newInCache missingFromCache : list User) :
  classify newInCache missingFromCache = ([], [], []) →
  newInCache = [] ∧ missingFromCache = [].
Proof.
  unfold classify. destruct (_ && _) eqn:Hboth.
  - destruct (pairUp _ _ _ _) as [[added' changed'] m'] eqn:Hp.
    intros [= -> _ ->].
    destruct (pairUp_inv _ _ _ _ _ _ _ Hp (indexByUID_keys missingFromCache))
      as (a1 & c1 & Ha & Hc & Hperm & _).
    simpl in Ha, Hc. subst a1 c1. simpl in Hperm.
    apply Permutation_nil in Hperm. subst newInCache. discriminate Hboth.
  - by intros [= -> ->].
Qed.

Lemma diff_empty_sameFingerprints c items :
  DiffAndUpdateCache c items = ([], [], cacheOf items) →
  sameFingerprints c (cacheOf items).
Proof.
  unfold DiffAndUpdateCache. intros [= Hf Hm] h. split.
  - intros Hh. apply cacheOf_lookup_None.
    intros (u & -> & Hin)%list_elem_of_fmap.
    assert (Hu : u ∈ filter (λ u, c !! Hash u = None) items)
      by (by apply list_elem_of_filter).
    rewrite Hf in Hu. by apply elem_of_nil in Hu.
  - intros Hh. destruct (c !! h) as [u|] eqn:Hl; [|done]. exfalso.
    apply fmap_nil_inv, map_to_list_empty_iff in Hm.
    assert (Hin : filter (λ kv : Z * User, cacheOf items !! kv.1 = None) c !! h
                  = Some u) by (by apply map_lookup_filter_Some).
    by rewrite Hm, lookup_empty in Hin.
Qed.

(** [reportChanges] either is quiet, when the diff is empty, or reports
    events and saves the users. *)
Lemma reportChanges_quiet_or_saved w ms users :
  (DiffAndUpdateCache (cache ms) users = ([], [], cacheOf users)
   ∧ reportChanges w ms users = ([], None, set_cache (cacheOf users) ms))
  ∨ ((reportChanges w ms users).1.1 ≠ []
     ∧ ((reportChanges w ms users).1.2, (reportChanges w ms users).2)
       = saveUsersToDisk w (set_cache (cacheOf users) ms) users).
Proof.
  unfold reportChanges, compareUsers.
  destruct (DiffAndUpdateCache (cache ms) users) as [[newInCache missingFromCache] c]
    eqn:Hd.
  assert (Hc : c = cacheOf users) by (by injection Hd as _ _ <-). subst c.
  destruct (classify newInCache missingFromCache) as [[added removed] changed] eqn:Hcl.
  destruct added as [|a added]; [destruct removed as [|r removed];
    [destruct changed as [|c changed]|]|].
  - left. apply classify_nil in Hcl as [-> ->]. by split.
  - right. cbn -[saveUsersToDisk].
    destruct (saveUsersToDisk w _ users) as [err ms1]. by split.
  - right. cbn -[saveUsersToDisk].
    destruct (saveUsersToDisk w _ users) as [err ms1]. by split.
  - right. cbn -[saveUsersToDisk].
    destruct (saveUsersToDisk w _ users) as [err ms1]. by split.
Qed.

(** While the store works, a poll that reports anything leaves the list of
    the accounts it enumerated in the bucket; a poll on which no state is
    due and that reports nothing writes nothing and keeps the time of the
    last state. *)
Theorem reported_poll_persists_users w ms users :
  GetUsers w = Some users →
  Store_ok w bucketKeyStateTimestamp = true →
  Store_ok w bucketKeyUsers = true →
  ((Fetch w ms).1 ≠ [] →
   bucket (Fetch w ms).2 !! bucketKeyUsers = Some (BlobUsers users))
  ∧ (needsState w ms = false → (Fetch w ms).1 = [] →
     bucket (Fetch w ms).2 = bucket ms ∧ lastState (Fetch w ms).2 = lastState ms).
Proof.
  intros Hu Hs1 Hs2. destruct (needsState w ms) eqn:Hn.
  - rewrite (Fetch_resync w ms users Hu Hn), reportState_unfold, Hs1, Hs2.
    cbn [fst snd bucket]. split; [|done]. intros _. apply lookup_insert_eq.
  - unfold Fetch. rewrite Hu, Hn.
    destruct (reportChanges_quiet_or_saved w ms users) as [[_ Hq]|[Hne Hsv]].
    + rewrite Hq. cbn [fst snd app reportError]. split; [done|].
      intros _ _. by destruct ms.
    + destruct (reportChanges w ms users) as [[events err] ms1].
      cbn [fst snd] in *. unfold saveUsersToDisk in Hsv. rewrite Hs2 in Hsv.
      injection Hsv as -> ->. cbn [fst snd app reportError bucket set_bucket].
      split; [intros _; apply lookup_insert_eq|].
      intros _ He. rewrite app_nil_r in He. done.
Qed.

Lemma sameFingerprints_IsEmpty c c' :
  sameFingerprints c c' → IsEmpty c = IsEmpty c'.
Proof.
  intros Hs. unfold IsEmpty. apply bool_decide_ext.
  rewrite !map_empty. split; intros He h; [by apply Hs|by apply Hs].
Qed.

(** While the store works, the bucket stays in step with the metricset from
    the first state on: if it was in step before a poll, or the poll sends
    the state, it is in step after the poll. *)
Theorem Fetch_keeps_disk_in_step w ms :
  Store_ok w bucketKeyStateTimestamp = true →
  Store_ok w bucketKeyUsers = true →
  persisted ms ∨ (needsState w ms = true ∧ is_Some (GetUsers w)) →
  persisted (Fetch w ms).2.
Proof.
  intros Hs1 Hs2 Hpre. destruct (GetUsers w) as [users|] eqn:Hu.
  2:{ unfold Fetch. rewrite Hu. destruct Hpre as [Hp|[_ [? [=]]]]. exact Hp. }
  destruct (needsState w ms) eqn:Hn.
  - rewrite (Fetch_resync w ms users Hu Hn), reportState_unfold, Hs1, Hs2.
    cbn [fst snd]. split; cbn [bucket lastState cache].
    + rewrite lookup_insert_ne by done. apply lookup_insert_eq.
    + exists users. split; [apply lookup_insert_eq|done].
  - destruct Hpre as [(Hts & us & Hus & Hsame)|[[=] _]].
    unfold Fetch. rewrite Hu, Hn.
    destruct (reportChanges_quiet_or_saved w ms users) as [[Hd Hq]|[Hne Hsv]].
    + rewrite Hq. cbn [fst snd]. split; [by destruct ms|].
      exists us. split; [by destruct ms|]. cbn [cache set_cache].
      apply diff_empty_sameFingerprints in Hd.
      intros h. rewrite <- (Hsame h). symmetry. apply Hd.
    + destruct (reportChanges w ms users) as [[events err] ms1].
      cbn [fst snd] in *. unfold saveUsersToDisk in Hsv. rewrite Hs2 in Hsv.
      injection Hsv as -> ->. split; cbn [bucket lastState cache set_bucket set_cache].
      * by rewrite lookup_insert_ne.
      * exists users. split; [apply lookup_insert_eq|done].
Qed.

(** A restart keeps what matters: from a bucket that is in step with a
    metricset, [New] builds a metricset with the same bucket, the same time
    of the last state and the same fingerprints in its cache, so that the
    state is due for the one exactly when it is due for the other. *)
Theorem New_restores_persisted Load_ok ms :
  Load_ok bucketKeyStateTimestamp = true →
  Load_ok bucketKeyUsers = true →
  persisted ms →
  ∃ ms', New Load_ok (period ms) (bucket ms) = inr ms'
         ∧ period ms' = period ms
         ∧ bucket ms' = bucket ms
         ∧ lastState ms' = lastState ms
         ∧ sameFingerprints (cache ms') (cache ms)
         ∧ ∀ w, needsState w ms' = needsState w ms.
Proof.
  intros Hl1 Hl2 (Hts & us & Hus & Hsame).
  unfold New, restoreUsersFromDisk. rewrite Hl1, Hl2, Hts, Hus.
  eexists. split; [reflexivity|]. cbn [period bucket lastState cache].
  assert (Hs : sameFingerprints (DiffAndUpdateCache ∅ us).2 (cache ms)).
  { intros h. symmetry. apply Hsame. }
  repeat split; try apply Hs.
  intros w. unfold needsState. cbn [period lastState cache].
  by rewrite (sameFingerprints_IsEmpty _ _ Hs).
Qed.

(** A metricset built from a bucket without users sends the state on its
    first poll, whenever that is. *)
Theorem start_without_users_sends_state Load_ok statePeriod bucket ms w :
  New Load_ok statePeriod bucket = inr ms →
  restoreUsersFromDisk Load_ok bucket = inr [] →
  needsState w ms = true.
Proof.
  unfold New. intros Hnew Hr. rewrite Hr in Hnew.
  destruct (Load_ok bucketKeyStateTimestamp); [|done].
  destruct (match bucket !! bucketKeyStateTimestamp with
            | Some (BlobUsers _) => None | Some (BlobTime t) => Some t
            | None => Some zeroTime end); [|done].
  injection Hnew as <-. unfold needsState. cbn [cache].
  apply orb_true_r.
Qed.

End UserPolls.

Section ClassificationMore.
Import user.

Lemma indexByUID_fold_values (l : list User) (m : gmap Z User) k v :
  foldl (λ m u, <[UID u := u]> m) m l !! k = Some v → v ∈ l ∨ m !! k = Some v.
Proof.
  revert m. induction l as [|u l IH]; intros m; cbn [foldl]; [by right|].
  intros [Hin|Hl]%IH; [left; by right|].
  destruct (decide (UID u = k)) as [<-|Hne].
  - rewrite lookup_insert_eq in Hl. injection Hl as ->. left. by left.
  - rewrite lookup_insert_ne in Hl by done. by right.
Qed.

Lemma indexByUID_values missingFromCache k v :
  indexByUID missingFromCache !! k = Some v → v ∈ missingFromCache.
Proof.
  intros [H|H]%indexByUID_fold_values; [done|]. by rewrite lookup_empty in H.
Qed.

(** An account the pairing loop files as changed found its uid in the
    index. *)
Lemma pairUp_changed_found newInCache (m : gmap Z User) added changed added' changed' m' :
  pairUp newInCache m added changed = (added', changed', m') →
  ∀ x, x ∈ changed' → x ∈ changed ∨ is_Some (m !! UID x).
Proof.
  revert m added changed.
  induction newInCache as [|n l IH]; intros m added changed; cbn [pairUp].
  - intros [= <- <- <-] x Hx. by left.
  - destruct (m !! UID n) as [v|] eqn:Hl; intros Hp x Hx.
    + destruct (IH _ _ _ Hp x Hx) as [Hin|[y Hy]].
      * apply elem_of_app in Hin as [Hin|Hin]; [by left|].
        apply list_elem_of_singleton in Hin as ->. right. by exists v.
      * apply lookup_delete_Some in Hy as [_ Hy]. right. by exists y.
    + apply (IH _ _ _ Hp x Hx).
Qed.

(** Every newly present account is classified once, as added or as changed;
    every account classified as removed is a newly absent one; and an
    account is classified as changed only if a newly absent account has its
    uid. *)
Theorem classify_partitions newInCache missingFromCache added removed changed :
  classify newInCache missingFromCache = (added, removed, changed) →
  added ++ changed ≡ₚ newInCache
  ∧ (∀ x, x ∈ removed → x ∈ missingFromCache)
  ∧ (∀ x, x ∈ changed → UID x ∈ UID <$> missingFromCache).
Proof.
  unfold classify. destruct (_ && _).
  - destruct (pairUp _ _ _ _) as [[added' changed'] m'] eqn:Hp.
    intros [= <- <- <-].
    destruct (pairUp_inv _ _ _ _ _ _ _ Hp (indexByUID_keys missingFromCache))
      as (a1 & c1 & -> & -> & Hperm & Hsub & _).
    split; [exact Hperm|]. split.
    + intros x ([k x'] & -> & Hkx)%list_elem_of_fmap. simpl.
      apply elem_of_map_to_list in Hkx.
      apply (indexByUID_values _ k). by eapply lookup_weaken.
    + intros x Hx.
      destruct (pairUp_changed_found _ _ _ _ _ _ _ Hp x Hx) as [Hin|[y Hy]].
      * by apply elem_of_nil in Hin.
      * apply list_elem_of_fmap. exists y.
        split; [by rewrite (indexByUID_keys _ _ _ Hy)|].
        by apply (indexByUID_values _ (UID x)).
  - intros [= <- <- <-]. rewrite app_nil_r. split; [done|]. split; [done|].
    intros x Hx. by apply elem_of_nil in Hx.
Qed.

(** The fields of an event determine the account: two accounts with the
    same [toMapStr] are the same account. *)
Theorem toMapStr_inj u v : toMapStr u = toMapStr v → u = v.
Proof.
  intros He.
  assert (Hk : ∀ k, toMapStr u !! k = toMapStr v !! k) by (by rewrite He).
  pose proof (Hk "name") as Hname. pose proof (Hk "passwd") as Hpasswd.
  pose proof (Hk "uid") as Huid. pose proof (Hk "gid") as Hgid.
  pose proof (Hk "dir") as Hdir. pose proof (Hk "shell") as Hshell.
  pose proof (Hk "user_information") as Hinfo. clear He Hk.
  destruct u as [n p ui gi info d s], v as [n' p' ui' gi' info' d' s'].
  unfold toMapStr in *. cbn [Name Passwd UID GID UserInfo Dir Shell] in *.
  destruct (decide (info ≠ "")) as [Hi|Hi], (decide (info' ≠ "")) as [Hi'|Hi'];
    simplify_map_eq; try done.
  apply dec_stable in Hi. apply dec_stable in Hi'. congruence.
Qed.

End ClassificationMore.

Section UserPollsExamples.
Import user user_examples.

(** Thirteen hours after the last state bob is gone: the poll sends the
    state for alice and no user_removed event. *)
Lemma resync_poll_reports_state_only_witness :
  (Fetch (world (t0 + 13 * hour) [alice_bash]) (metricset [alice_bash; bob])).1
  = [REvent (mkEvent eventTypeState eventActionUserExists
                     (Some "6ba7b810-9dad-11d1-80b4-00c04fd430c8")
                     (toMapStr alice_bash))].
Proof.
  exact (proj1 (resync_poll_reports_state_only
                  (world (t0 + 13 * hour) [alice_bash]) (metricset [alice_bash; bob])
                  [alice_bash] eq_refl ltac:(vm_compute; reflexivity))).
Defined.

Lemma repeated_poll_is_quiet_witness :
  Fetch (world (t0 + 2 * hour) [alice_bash; bob])
        (Fetch (world (t0 + hour) [alice_bash; bob]) (metricset [alice_bash])).2
  = ([], (Fetch (world (t0 + hour) [alice_bash; bob]) (metricset [alice_bash])).2).
Proof.
  apply (repeated_poll_is_quiet (world (t0 + hour) [alice_bash; bob])
           (world (t0 + 2 * hour) [alice_bash; bob]) (metricset [alice_bash])
           [alice_bash; bob]); [reflexivity|reflexivity|].
  vm_compute. reflexivity.
Defined.

Lemma reported_poll_persists_users_witness :
  bucket (Fetch (world (t0 + hour) [alice_bash; bob]) (metricset [alice_bash])).2
    !! bucketKeyUsers
  = Some (BlobUsers [alice_bash; bob]).
Proof.
  apply (proj1 (reported_poll_persists_users (world (t0 + hour) [alice_bash; bob])
                  (metricset [alice_bash]) [alice_bash; bob]
                  eq_refl eq_refl eq_refl)).
  vm_compute. discriminate.
Defined.

Lemma Fetch_keeps_disk_in_step_witness :
  persisted (Fetch (world t0 [alice_bash]) (metricset [])).2.
Proof.
  apply (Fetch_keeps_disk_in_step (world t0 [alice_bash]) (metricset []));
    [reflexivity|reflexivity|].
  right. split; [vm_compute; reflexivity|by eexists].
Defined.

Lemma New_restores_persisted_witness :
  ∃ ms', New (λ _, true) (12 * hour) (bucket metricset_synced) = inr ms'
         ∧ period ms' = 12 * hour
         ∧ bucket ms' = bucket metricset_synced
         ∧ lastState ms' = t0
         ∧ sameFingerprints (cache ms') (cacheOf [alice_bash])
         ∧ ∀ w, needsState w ms' = needsState w metricset_synced.
Proof.
  apply (New_restores_persisted (λ _, true) metricset_synced);
    [reflexivity|reflexivity|].
  split; [vm_compute; reflexivity|].
  exists [alice_bash]. split; [vm_compute; reflexivity|]. by intros h.
Defined.

Lemma start_without_users_sends_state_witness :
  needsState (world t0 [alice_bash]) (mkMetricSet (12 * hour) ∅ ∅ zeroTime) = true.
Proof.
  apply (start_without_users_sends_state (λ _, true) (12 * hour) ∅);
    reflexivity.
Defined.

End UserPollsExamples.

Section ClassificationMoreExamples.
Import user user_examples.

Lemma classify_partitions_witness :
  [bob] ++ [alice_zsh] ≡ₚ [alice_zsh; bob]
  ∧ (∀ x, x ∈ [] → x ∈ [alice_bash])
  ∧ (∀ x, x ∈ [alice_zsh] → UID x ∈ UID <$> [alice_bash]).
Proof.
  apply (classify_partitions [alice_zsh; bob] [alice_bash] [bob] [] [alice_zsh]).
  vm_compute. reflexivity.
Defined.

Lemma toMapStr_inj_witness : alice_bash = alice_bash.
Proof. apply (toMapStr_inj alice_bash alice_bash). reflexivity. Defined.

End ClassificationMoreExamples.
